(** * dada2ms: the geometry and calibration helpers of [ms_funcs.cc]

    A shallow embedding of the functions of [ms_funcs.cc] that carry
    algorithmic content, and the properties the specification states about
    them:

    - [str2MEpoch]: the timestamp parser built on [sscanf];
    - [seaLevel], [zenithUVWs], [itrfAnts]: the array geometry;
    - [boolArray2charVector], [charVector2boolArray], [readCalTable]: the
      calibration reader and its flag repacking;
    - [fillAntTab], [fillFeedTab], [fillFieldTab], [addField],
      [fillObservationTab], [fillPointingTab], [fillSpWindowTab],
      [fillSourceTab] and the two update functions: the writers of the
      sub-tables of a measurement set.

    Conventions of the embedding.

    - A C++ [double] is a real number of [R] where the code computes with
      it (the sea-level radius, the rotations, the channel frequencies):
      rounding, infinities and NaN have no counterpart there, and the
      results say "over the reals".  Where a claim turns on the arithmetic
      itself, the numbers are left open: [zenithUVWs] is given for any type
      of numbers with any subtraction, [str2MEpoch] for any implementation
      of casacore's time classes, and both are evaluated in binary64 with
      Rocq's primitive floats.
    - A C++ [int] that counts or indexes the elements of a container is a
      [nat] (a [Z] where the code compares it with table data).  The counts
      are taken to fit a 32-bit [int], as the code takes them to; the one
      [int] expression that overflows long before its operands do, the
      product [(nAnt+1)*nAnt] of [zenithUVWs], is computed in [Z] and
      checked against the range of [int].
    - A function that writes through a reference parameter is a state
      transformer over the referenced object; an exception leaves the
      state as it was when the [throw] was reached.
    - casacore's containers: a [Matrix<Double>] with three rows is the list
      of its columns, an [Array<T>] is its shape together with its elements
      in iteration order, an [IPosition] is a list of extents.
    - A table is the list of its rows, a row the finite map from the
      columns written so far to their cells. *)

From Stdlib Require Import PrimFloat.
From Stdlib Require Import ZArith List String Ascii Reals Lra Lia QArith.
From Stdlib Require Import DecimalString DecimalNat.
From stdpp Require Import base list gmap strings.
Import ListNotations.

Set Default Proof Using "Type".

(** ** Outcomes of a call *)

(** The exceptions the code throws itself, and the ones thrown by casacore. *)
Inductive exn : Type :=
| runtime_error (what : string)
| length_error (what : string)
| AipsError.

(** A call returns, throws, or does something the source does not fix: it
    depends on casacore reading a row that does not exist, or C++ leaves
    the behaviour undefined (an [int] expression that overflows). *)
Inductive result (A : Type) : Type :=
| Ok (a : A)
| Throw (e : exn)
| Unspecified.
Arguments Ok {A} a.
Arguments Throw {A} e.
Arguments Unspecified {A}.

(** Functions with reference parameters: the referenced objects are the
    state [S]; the state that comes back is what the caller sees afterwards,
    whether the call returned or threw. *)
Definition M (S A : Type) : Type := S -> result A * S.

Definition ret {S A} (a : A) : M S A := fun s => (Ok a, s).

Definition bind {S A B} (m : M S A) (k : A -> M S B) : M S B :=
  fun s =>
    match m s with
    | (Ok a, s') => k a s'
    | (Throw e, s') => (Throw e, s')
    | (Unspecified, s') => (Unspecified, s')
    end.

Definition throw {S A} (e : exn) : M S A := fun s => (Throw e, s).
Definition unspecified {S A} : M S A := fun s => (Unspecified, s).
Definition get {S} : M S S := fun s => (Ok s, s).
Definition put {S} (s : S) : M S unit := fun _ => (Ok tt, s).

(** Run a computation on the second component of a pair of references. *)
Definition on_snd {S1 S2 A} (m : M S2 A) : M (S1 * S2) A :=
  fun s => let '(r, s2) := m (snd s) in (r, (fst s, s2)).

Declare Scope cxx_scope.
Delimit Scope cxx_scope with cxx.
Notation "'let*' x ':=' m 'in' k" := (bind m (fun x => k))
  (at level 10, x name, m at level 100, k at level 200, only parsing) : cxx_scope.
Notation "m ';;;' k" := (bind m (fun _ => k))
  (at level 100, k at level 200, right associativity, only parsing) : cxx_scope.

(** ** casacore containers *)

(** [IPosition]: the extents of an array.  [IPosition::product()] as casacore
    computes it: 0 for a shape without axes (that of a default-constructed
    array), the product of the extents otherwise. *)
Abbreviation IPosition := (list nat) (only parsing).

Definition product (shp : IPosition) : nat :=
  match shp with
  | [] => 0%nat
  | _ :: _ => fold_right Nat.mul 1%nat shp
  end.

(** [Array<T>]: the shape and the elements in the order [begin()..end()]
    visits them. *)
Record Array (A : Type) : Type := mkArray {
  shape : IPosition;
  elems : list A
}.
Arguments mkArray {A} shape elems.
Arguments shape {A} a.
Arguments elems {A} a.

(** The invariant casacore keeps: as many elements as the shape says. *)
Definition wf_Array {A} (a : Array A) : Prop :=
  product (shape a) = length (elems a).

(** [char] by its value. *)
Abbreviation char := Z (only parsing).

(** [static_cast<char>(Bool)] and [static_cast<Bool>(char)]. *)
Definition bool2char (b : bool) : char := if b then 1%Z else 0%Z.
Definition char2bool (c : char) : bool := negb (c =? 0)%Z.

(** ** Flag repacking *)

Open Scope cxx_scope.

(** [boolArray2charVector(boolArr, charVec)]: the state is [charVec].
    <<
      if (boolArr.shape().product() != charVec.size()) throw std::length_error(..);
      int i = 0;
      for (iter = boolArr.begin(); iter != boolArr.end(); ++iter)
        charVec[i++] = static_cast<char>( *iter );
    >> *)
Definition boolArray2charVector_loop (bs : list bool) (charVec : list char) : list char * nat :=
  fold_left (fun '(v, i) b => (<[i := bool2char b]> v, S i)) bs (charVec, 0%nat).

Definition mismatch_msg : string :=
  "array length mismatch in ms_funcs::boolArray2charVector()".

Definition boolArray2charVector (boolArr : Array bool) : M (list char) unit :=
  let* charVec := get in
  if negb (product (shape boolArr) =? length charVec)%nat
  then throw (length_error mismatch_msg)
  else put (fst (boolArray2charVector_loop (elems boolArr) charVec)).

(** [charVector2boolArray(charVec, boolArr)]: the state is [boolArr]; the
    iterator visits the positions of [boolArr] in order and the counter [i]
    walks [charVec].  (The message of the exception names
    [boolArray2charVector] in the source too.)
    <<
      if (boolArr.shape().product() != charVec.size()) throw std::length_error(..);
      int i = 0;
      for (iter = boolArr.begin(); iter != boolArr.end(); ++iter)
        *iter = static_cast<Bool>(charVec[i++]);
    >> *)
Definition charVector2boolArray_loop (charVec : list char) (bs : list bool) : list bool * nat :=
  fold_left
    (fun '(a, i) pos => (<[pos := char2bool (default 0%Z (charVec !! i))]> a, S i))
    (seq 0 (length bs)) (bs, 0%nat).

Definition charVector2boolArray (charVec : list char) : M (Array bool) unit :=
  let* boolArr := get in
  if negb (product (shape boolArr) =? length charVec)%nat
  then throw (length_error mismatch_msg)
  else put (mkArray (shape boolArr)
              (fst (charVector2boolArray_loop charVec (elems boolArr)))).

Close Scope cxx_scope.

(** ** The calibration table *)

(** [std::complex<float>], under the convention for floating point. *)
Definition Complex : Type := (R * R)%type.
Definition Complex_zero : Complex := (0%R, 0%R).

(** One row of the calibration table, with the three columns the code reads:
    the gains [CPARAM], the flags [FLAG], the antenna index [ANTENNA1]. *)
Record CalRow : Type := mkCalRow {
  CPARAM : Array Complex;
  FLAG : Array bool;
  ANTENNA1 : Z
}.

Abbreviation Table := (list CalRow) (only parsing).

(** [std::vector::resize(n)]: the first [n] elements are kept, missing ones
    are value-initialised. *)
Definition resize {A} (n : nat) (dflt : A) (v : list A) : list A :=
  take n v ++ replicate (n - length v) dflt.

(** [ArrayColumn<T>::getColumn]: every cell must have the shape of cell 0;
    the result has that shape with the number of rows appended, and holds
    the cells one after the other.  A cell of another shape makes casacore
    throw; what the failed read has put into the destination by then is
    not modelled. *)
Definition conforming {A} (shp : IPosition) (cells : list (Array A)) : bool :=
  forallb (fun c => bool_decide (shape c = shp)) cells.

Definition getColumn {A St} (shp0 : IPosition) (cells : list (Array A)) : M St (Array A) :=
  if conforming shp0 cells
  then ret (mkArray (shp0 ++ [length cells]) (concat (map elems cells)))
  else throw AipsError.

Definition cal_shape_msg : string :=
  "Cal table not expected shape (one row per ant)".

(** The loop over [ANTENNA1], from row [i] on. *)
Fixpoint check_antenna1 {St} (i : nat) (rows : list CalRow) : M St unit :=
  match rows with
  | [] => ret tt
  | row :: rest =>
      if negb (ANTENNA1 row =? Z.of_nat i)%Z
      then throw (length_error cal_shape_msg)
      else check_antenna1 (S i) rest
  end.

Open Scope cxx_scope.

(** [readCalTable(calName, gain, flag)]: the table is the one [calName]
    opens; the state is the pair of the vectors [gain] and [flag].
    <<
      const int nrow = cal.nrow();
      IPosition cal_shape = gain_col.shape(0);
      cal_shape.append(IPosition(1, nrow));
      int num_gains = cal_shape.product();
      gain.resize(num_gains);
      flag.resize(num_gains);
      Array<Complex> arr_gain(cal_shape, gain.data(), SHARE);
      gain_col.getColumn(arr_gain);
      Array<Bool> arr_flag = ROArrayColumn<Bool>(cal, "FLAG").getColumn();
      boolArray2charVector(arr_flag, flag);
      for (int i=0; i<nrow; i++)
        if (antenna1.get(i) != i) throw std::length_error(..);
    >>
    [arr_gain] shares the storage of [gain], so what [getColumn] reads is
    in [gain] as soon as it is read. *)
Definition readCalTable (cal : Table) : M (list Complex * list char) unit :=
  let nrow := length cal in
  match cal with
  | [] => unspecified
  | row0 :: _ =>
      let cal_shape := shape (CPARAM row0) ++ [nrow] in
      let num_gains := product cal_shape in
      let* s := get in
      put (resize num_gains Complex_zero (fst s), resize num_gains 0%Z (snd s)) ;;;
      let* arr_gain := getColumn (shape (CPARAM row0)) (map CPARAM cal) in
      let* s := get in
      put (elems arr_gain, snd s) ;;;
      let* arr_flag := getColumn (shape (FLAG row0)) (map FLAG cal) in
      on_snd (boolArray2charVector arr_flag) ;;;
      check_antenna1 0 cal
  end.

Close Scope cxx_scope.

(** The shape invariant of a calibration table the reader relies on: every
    cell of [CPARAM] has the shape [gshape], every cell of [FLAG] the shape
    [fshape], a flag for each gain.  The cells are arrays with at least one
    axis: an array without axes holds nothing, and is not what a cell of an
    array column holds. *)
Definition uniform_cells (gshape fshape : IPosition) (cal : Table) : Prop :=
  gshape <> [] /\ fshape <> [] /\
  product fshape = product gshape /\
  Forall (fun row =>
            shape (CPARAM row) = gshape /\ wf_Array (CPARAM row) /\
            shape (FLAG row) = fshape /\ wf_Array (FLAG row)) cal.

(** The content of the two columns, cell after cell. *)
Definition column_gains (cal : Table) : list Complex :=
  concat (map (fun row => elems (CPARAM row)) cal).
Definition column_flags (cal : Table) : list bool :=
  concat (map (fun row => elems (FLAG row)) cal).

(** The three-antenna tables of the specification's example, with the
    [ANTENNA1] columns [0, 1, 2] and [0, 2, 1]: one gain and one flag per
    row. *)
Definition cal_012 : Table :=
  [ mkCalRow (mkArray [1] [(1, 0)%R]) (mkArray [1] [true]) 0;
    mkCalRow (mkArray [1] [(0, 1)%R]) (mkArray [1] [false]) 1;
    mkCalRow (mkArray [1] [(2, 0)%R]) (mkArray [1] [true]) 2 ].


Definition cal_021 : Table :=
  [ mkCalRow (mkArray [1] [(1, 0)%R]) (mkArray [1] [true]) 0;
    mkCalRow (mkArray [1] [(0, 1)%R]) (mkArray [1] [false]) 2;
    mkCalRow (mkArray [1] [(2, 0)%R]) (mkArray [1] [true]) 1 ].

(** ** Geometry *)

Open Scope R_scope.

(** A column of a [Matrix<Double>] with three rows, and a [Vector<Double>]
    of length three. *)
Abbreviation Vector3 := (R * R * R)%type (only parsing).
Definition zero3 : Vector3 := (0, 0, 0).

Definition vget {D : Type} (k : nat) (v : D * D * D) : D :=
  match k with
  | O => fst (fst v)
  | S O => snd (fst v)
  | _ => snd v
  end.

Definition vset {D : Type} (k : nat) (a : D) (v : D * D * D) : D * D * D :=
  match k with
  | O => (a, snd (fst v), snd v)
  | S O => (fst (fst v), a, snd v)
  | _ => (fst (fst v), snd (fst v), a)
  end.

(** A matrix with three rows: the list of its columns. [mget m k i] is
    [m(k,i)], [mset m k i a] is [m(k,i) = a]. *)
Abbreviation Matrix := (list Vector3) (only parsing).

Definition mget (m : Matrix) (k i : nat) : R := vget k (default zero3 (m !! i)).
Definition mset {D : Type} (m : list (D * D * D)) (k i : nat) (a : D)
  : list (D * D * D) := alter (vset k a) i m.

(** [Matrix<Double> m(3, n)]; the content is written before it is read. *)
Definition new_Matrix (n : nat) : Matrix := replicate n zero3.

Definition radians (degrees : R) : R := degrees * PI / 180.

Definition hypot (x y : R) : R := sqrt (x * x + y * y).

(** [seaLevel(latitude)] *)
Definition majorAxis : R := 6378137.0.
Definition minorAxis : R := 6356752.3142.

Definition seaLevel (latitude : R) : R :=
  let rLat := radians latitude in
  let x := majorAxis * cos rLat in
  let y := minorAxis * sin rLat in
  hypot x y.

(** The largest [int]. *)
Definition INT_MAX : Z := 2147483647.

Section ZenithUVWs.

(** [double] with its subtraction, whatever the arithmetic: the reals, or
    binary64 with its rounding, infinities and NaN.  [unwritten] is what the
    storage of a matrix holds before it is written. *)
Variable double : Type.
Variable minus : double -> double -> double.
Variable unwritten : double.

(** [m(k,i)] of a matrix of [double] with three rows. *)
Definition dget (m : list (double * double * double)) (k i : nat) : double :=
  vget k (default (unwritten, unwritten, unwritten) (m !! i)).

(** [zenithUVWs(antPos)]: the state of the loops is the matrix [uvw] and
    the counter [c].
    <<
      int nAnt = antPos.ncolumn();
      Matrix<Double> uvw(3, (nAnt+1)*nAnt/2);
      int c=0;
      for (int i=0; i<nAnt; i++)
        for (int j=i; j<nAnt; j++) {
          uvw(0,c) = antPos(0,i) - antPos(0,j);
          uvw(1,c) = antPos(1,i) - antPos(1,j);
          uvw(2,c) = antPos(2,i) - antPos(2,j);
          c++;
        }
    >>
    The product [(nAnt+1)*nAnt] is an [int]: when it does not fit, the
    behaviour is undefined. *)
Definition zenithUVWs_body (antPos : list (double * double * double)) (i : nat)
    (st : list (double * double * double) * nat) (j : nat)
  : list (double * double * double) * nat :=
  let '(uvw, c) := st in
  let uvw := mset uvw 0 c (minus (dget antPos 0 i) (dget antPos 0 j)) in
  let uvw := mset uvw 1 c (minus (dget antPos 1 i) (dget antPos 1 j)) in
  let uvw := mset uvw 2 c (minus (dget antPos 2 i) (dget antPos 2 j)) in
  (uvw, S c).

Definition zenithUVWs (antPos : list (double * double * double))
  : result (list (double * double * double)) :=
  let nAnt := length antPos in
  if ((Z.of_nat nAnt + 1) * Z.of_nat nAnt <=? INT_MAX)%Z
  then
    let uvw := replicate ((nAnt + 1) * nAnt / 2) (unwritten, unwritten, unwritten) in
    Ok (fst (fold_left
               (fun st i => fold_left (zenithUVWs_body antPos i) (seq i (nAnt - i)) st)
               (seq 0 nAnt) (uvw, 0%nat)))
  else Unspecified.

End ZenithUVWs.

Arguments dget {double} unwritten m k i.
Arguments zenithUVWs_body {double} minus unwritten antPos i st j.
Arguments zenithUVWs {double} minus unwritten antPos.

(** casacore's [Rot3D(axis, angle)]: the rotation by [angle] about the axis
    numbered [axis], built entry by entry as casacore does. *)
Definition Rot3D (axis : nat) (angle : R) : Matrix :=
  let cosa := cos angle in
  let sina := sin angle in
  let Rot := new_Matrix 3 in
  let Rot := mset Rot axis axis 1 in
  let Rot := mset Rot ((axis + 1) mod 3) ((axis + 1) mod 3) cosa in
  let Rot := mset Rot ((axis + 2) mod 3) ((axis + 1) mod 3) sina in
  let Rot := mset Rot ((axis + 1) mod 3) ((axis + 2) mod 3) (- sina) in
  let Rot := mset Rot ((axis + 2) mod 3) ((axis + 2) mod 3) cosa in
  Rot.

(** casacore's [product(Matrix, Vector)] for a 3x3 matrix. *)
Definition product_mv (A : Matrix) (x : Vector3) : Vector3 :=
  let row k := mget A k 0 * vget 0 x + mget A k 1 * vget 1 x + mget A k 2 * vget 2 x in
  (row 0%nat, row 1%nat, row 2%nat).

(** [MVPosition::getLength]. *)
Definition getLength (v : Vector3) : R :=
  sqrt (vget 0 v * vget 0 v + vget 1 v * vget 1 v + vget 2 v * vget 2 v).

Section ItrfAnts.

(** What casacore's measures supply: the pair of angles of a position
    vector ([MVPosition::getAngle]), and the conversion machine
    [wgs2itrf] applied to the WGS84 position of a given height and angles,
    read back in metres. *)
Variable Angles : Type.
Variable getAngle : Vector3 -> Angles.
Variable wgs2itrf : R -> Angles -> Vector3.

(** The body of the loop of [itrfAnts] for antenna [i].
    <<
      currPos(0) = antPos(2,i); currPos(1) = antPos(0,i); currPos(2) = antPos(1,i);
      currPos(0) += seaLev + altitude;
      rotPos = product(rLon, product(rLat, currPos));
      MVPosition posVectWGS(rotPos(0), rotPos(1), rotPos(2));
      MPosition posWGS(posVectWGS.getLength("m") - Quantity(seaLev,"m"),
                       posVectWGS.getAngle(), MPosition::WGS84);
      MPosition posITRF = wgs2itrf(posWGS);
      Vector<Double> posVectITRF = posITRF.get("m").getValue();
      itrf(0,i) = posVectITRF(0); itrf(1,i) = posVectITRF(1); itrf(2,i) = posVectITRF(2);
    >> *)
Definition itrfAnts_body (antPos rLat rLon : Matrix) (seaLev altitude : R)
    (itrf : Matrix) (i : nat) : Matrix :=
  let currPos := zero3 in
  let currPos := vset 0 (mget antPos 2 i) currPos in
  let currPos := vset 1 (mget antPos 0 i) currPos in
  let currPos := vset 2 (mget antPos 1 i) currPos in
  let currPos := vset 0 (vget 0 currPos + (seaLev + altitude)) currPos in
  let rotPos := product_mv rLon (product_mv rLat currPos) in
  let posVectWGS : Vector3 := (vget 0 rotPos, vget 1 rotPos, vget 2 rotPos) in
  let posVectITRF := wgs2itrf (getLength posVectWGS - seaLev) (getAngle posVectWGS) in
  let itrf := mset itrf 0 i (vget 0 posVectITRF) in
  let itrf := mset itrf 1 i (vget 1 posVectITRF) in
  let itrf := mset itrf 2 i (vget 2 posVectITRF) in
  itrf.

(** [itrfAnts(antPos, longitude, latitude, altitude)] *)
Definition itrfAnts (antPos : Matrix) (longitude latitude altitude : R) : Matrix :=
  let nAnt := length antPos in
  let rLat := Rot3D 1 (- radians latitude) in
  let rLon := Rot3D 2 (radians longitude) in
  let seaLev := seaLevel latitude in
  let itrf := new_Matrix nAnt in
  fold_left (itrfAnts_body antPos rLat rLon seaLev altitude) (seq 0 nAnt) itrf.

End ItrfAnts.

Close Scope R_scope.

(** ** The baselines and the geocentric positions as the specification
    words them *)

Open Scope R_scope.

(** The position of antenna [i] ([dflt] where there is none), and the
    difference of two positions axis by axis, in the arithmetic of the
    [minus] given. *)
Definition position {A : Type} (dflt : A) (positions : list A) (i : nat) : A :=
  default dflt (positions !! i).

Definition vsub {D : Type} (minus : D -> D -> D) (p q : D * D * D) : D * D * D :=
  (minus (vget 0 p) (vget 0 q), minus (vget 1 p) (vget 1 q),
   minus (vget 2 p) (vget 2 q)).

(** "For i in increasing antenna index, for j in increasing antenna index
    with j >= i", each pair with the vector [position(i) - position(j)]. *)
Definition spec_baselines {D : Type} (minus : D -> D -> D) (dflt : D * D * D)
    (positions : list (D * D * D)) : list (D * D * D) :=
  let N := length positions in
  flat_map
    (fun i => map (fun j => vsub minus (position dflt positions i)
                                       (position dflt positions j))
                  (seq i (N - i)))
    (seq 0 N).

(** The number of pairs [(i', j)] with [i' < i]: where row [i] of the
    enumeration starts.  [baseline_index N i j] is the place of the pair
    [(i, j)]. *)
Fixpoint row_start (N i : nat) : nat :=
  match i with
  | O => 0
  | S k => row_start N k + (N - k)
  end.

Definition baseline_index (N i j : nat) : nat := row_start N i + (j - i).

(** The rotation about the second axis (the "latitude axis"; a positive
    angle carries the first axis away from the pole, which is why the code
    negates the latitude) and about the third axis (the "pole axis"). *)
Definition rotate_latitude_axis (t : R) (v : Vector3) : Vector3 :=
  (cos t * vget 0 v + sin t * vget 2 v,
   vget 1 v,
   - sin t * vget 0 v + cos t * vget 2 v).

Definition rotate_pole_axis (t : R) (v : Vector3) : Vector3 :=
  (cos t * vget 0 v - sin t * vget 1 v,
   sin t * vget 0 v + cos t * vget 1 v,
   vget 2 v).

Section SpecToGeocentric.

Variable Angles : Type.
Variable getAngle : Vector3 -> Angles.
Variable wgs2itrf : R -> Angles -> Vector3.

(** Steps 1 to 4 of the specification for one antenna offset
    [(East, North, Up)]. *)
Definition spec_toGeocentric (longitude latitude altitude : R) (offset : Vector3)
  : Vector3 :=
  let East := vget 0 offset in
  let North := vget 1 offset in
  let Up := vget 2 offset in
  let local : Vector3 := (Up + (seaLevel latitude + altitude), East, North) in
  let rotated :=
    rotate_pole_axis (radians longitude)
      (rotate_latitude_axis (- radians latitude) local) in
  wgs2itrf (getLength rotated - seaLevel latitude) (getAngle rotated).

End SpecToGeocentric.

Close Scope R_scope.

(** ** [sscanf] with the conversions the code uses *)

(** The model follows ISO C (7.21.6.2): [%d] and [%lf] skip white space,
    then take the longest run of characters that is, or is a prefix of, a
    number of the expected form; the conversion fails when that run is not
    such a number.  A character of the format other than a conversion must
    be the next character of the input.  The value of a [%d] field is taken
    exactly (ISO C leaves the behaviour undefined when it does not fit the
    [int] it is stored in; nothing below depends on the value of such a
    field), and the value of a finite [%lf] field is the rational the text
    denotes. *)

Open Scope Z_scope.
Open Scope char_scope.

Definition isspace (c : ascii) : bool :=
  let n := nat_of_ascii c in
  (n =? 32)%nat || ((9 <=? n)%nat && (n <=? 13)%nat).

Definition isdigit (c : ascii) : bool :=
  let n := nat_of_ascii c in (48 <=? n)%nat && (n <=? 57)%nat.

Definition isupper (c : ascii) : bool :=
  let n := nat_of_ascii c in (65 <=? n)%nat && (n <=? 90)%nat.

Definition islower (c : ascii) : bool :=
  let n := nat_of_ascii c in (97 <=? n)%nat && (n <=? 122)%nat.

Definition tolower (c : ascii) : ascii :=
  if isupper c then ascii_of_nat (nat_of_ascii c + 32)%nat else c.

Definition isxdigit (c : ascii) : bool :=
  let n := nat_of_ascii (tolower c) in
  isdigit c || ((97 <=? n)%nat && (n <=? 102)%nat).

Definition digit_value (c : ascii) : Z := Z.of_nat (nat_of_ascii c) - 48.

Definition xdigit_value (c : ascii) : Z :=
  if isdigit c then digit_value c else Z.of_nat (nat_of_ascii (tolower c)) - 87.

(** The characters allowed between the parentheses of [nan(...)]. *)
Definition isnchar (c : ascii) : bool :=
  isdigit c || isupper c || islower c || Ascii.eqb c "_".

Fixpoint skip_space (l : list ascii) : list ascii :=
  match l with
  | c :: r => if isspace c then skip_space r else l
  | [] => []
  end.

(** The longest prefix of characters satisfying [p], and what follows it. *)
Fixpoint span (p : ascii -> bool) (l : list ascii) : list ascii * list ascii :=
  match l with
  | c :: r => if p c then let '(ds, rest) := span p r in (c :: ds, rest) else ([], l)
  | [] => ([], [])
  end.

Definition number_of (base : Z) (val : ascii -> Z) (ds : list ascii) : Z :=
  fold_left (fun acc c => base * acc + val c) ds 0.

Definition scan_sign (l : list ascii) : bool * list ascii :=
  match l with
  | c :: r =>
      if Ascii.eqb c "-" then (true, r)
      else if Ascii.eqb c "+" then (false, r)
      else (false, l)
  | [] => (false, [])
  end.

(** [%d]: an optionally signed run of decimal digits. *)
Definition scan_d (input : list ascii) : option (Z * list ascii) :=
  let '(neg, l) := scan_sign (skip_space input) in
  let '(ds, rest) := span isdigit l in
  match ds with
  | [] => None
  | _ :: _ =>
      let v := number_of 10 digit_value ds in
      Some (if neg then - v else v, rest)
  end.

(** What a [%lf] field converts to. *)
Inductive lf : Type :=
| lf_num (q : Q)
| lf_inf (negative : bool)
| lf_nan.

(** [match_word w l]: [l] starts with the lower-case word [w], letter case
    ignored; what follows it. *)
Fixpoint match_word (w l : list ascii) : option (list ascii) :=
  match w, l with
  | [], _ => Some l
  | a :: w', c :: l' => if Ascii.eqb a (tolower c) then match_word w' l' else None
  | _ :: _, [] => None
  end.

(** Digits, an optional point, digits: at least one digit in all. *)
Definition scan_mantissa (isd : ascii -> bool) (l : list ascii)
  : option (list ascii * list ascii * list ascii) :=
  let '(ip, l1) := span isd l in
  let '(fp, l2) :=
    match l1 with
    | c :: r => if Ascii.eqb c "." then span isd r else ([], l1)
    | [] => ([], l1)
    end in
  match ip, fp with
  | [], [] => None
  | _, _ => Some (ip, fp, l2)
  end.

(** An exponent, when the next character is [marker]: then a sign may
    follow and digits must. *)
Definition scan_exponent (marker : ascii) (l : list ascii) : option (Z * list ascii) :=
  match l with
  | c :: r =>
      if Ascii.eqb (tolower c) marker then
        let '(neg, r1) := scan_sign r in
        let '(ds, rest) := span isdigit r1 in
        match ds with
        | [] => None
        | _ :: _ =>
            let e := number_of 10 digit_value ds in
            Some (if neg then - e else e, rest)
        end
      else Some (0, l)
  | [] => Some (0, [])
  end.

Definition scan_number (isd : ascii -> bool) (val : ascii -> Z) (base : Z)
    (marker : ascii) (ebase : Z) (l : list ascii) : option (Q * list ascii) :=
  match scan_mantissa isd l with
  | None => None
  | Some (ip, fp, l2) =>
      match scan_exponent marker l2 with
      | None => None
      | Some (e, rest) =>
          let m := (inject_Z (number_of base val (ip ++ fp))
                    / inject_Z (base ^ Z.of_nat (length fp)))%Q in
          Some ((m * Qpower (inject_Z ebase) e)%Q, rest)
      end
  end.

Open Scope string_scope.

(** [%lf]: after white space and a sign, one of [inf], [infinity], [nan],
    [nan(...)], a hexadecimal number with binary exponent, a decimal number
    with decimal exponent. *)
Definition scan_lf (input : list ascii) : option (lf * list ascii) :=
  let '(neg, l) := scan_sign (skip_space input) in
  let signed (r : option (Q * list ascii)) :=
    match r with
    | Some (q, rest) => Some (lf_num (if neg then - q else q)%Q, rest)
    | None => None
    end in
  match match_word (list_ascii_of_string "inf") l with
  | Some r =>
      match match_word (list_ascii_of_string "i") r with
      | Some _ =>
          match match_word (list_ascii_of_string "inity") r with
          | Some r' => Some (lf_inf neg, r')
          | None => None
          end
      | None => Some (lf_inf neg, r)
      end
  | None =>
      match match_word (list_ascii_of_string "nan") l with
      | Some r =>
          match match_word (list_ascii_of_string "(") r with
          | Some r1 =>
              match match_word (list_ascii_of_string ")") (snd (span isnchar r1)) with
              | Some r2 => Some (lf_nan, r2)
              | None => None
              end
          | None => Some (lf_nan, r)
          end
      | None =>
          match match_word (list_ascii_of_string "0x") l with
          | Some r => signed (scan_number isxdigit xdigit_value 16 "p"%char 2 r)
          | None => signed (scan_number isdigit digit_value 10 "e"%char 10 l)
          end
      end
  end.

(** The directives of a format: the two conversions the code uses, and
    ordinary characters. *)
Inductive directive : Type :=
| conv_d
| conv_lf
| ordinary (c : ascii).

Fixpoint parse_format (f : list ascii) : list directive :=
  match f with
  | [] => []
  | c :: r =>
      if Ascii.eqb c "%" then
        match r with
        | c1 :: r1 =>
            if Ascii.eqb c1 "d" then conv_d :: parse_format r1
            else
              match r1 with
              | c2 :: r2 =>
                  if Ascii.eqb c1 "l" && Ascii.eqb c2 "f" then conv_lf :: parse_format r2
                  else ordinary c :: parse_format r
              | [] => ordinary c :: parse_format r
              end
        | [] => [ordinary c]
        end
      else ordinary c :: parse_format r
  end.

(** The arguments assigned, in order. *)
Inductive arg : Type :=
| arg_int (z : Z)
| arg_double (v : lf).

Fixpoint scan (fmt : list directive) (input : list ascii) : list arg :=
  match fmt with
  | [] => []
  | conv_d :: fmt' =>
      match scan_d input with
      | Some (z, rest) => arg_int z :: scan fmt' rest
      | None => []
      end
  | conv_lf :: fmt' =>
      match scan_lf input with
      | Some (v, rest) => arg_double v :: scan fmt' rest
      | None => []
      end
  | ordinary c :: fmt' =>
      match input with
      | c' :: rest => if Ascii.eqb c c' then scan fmt' rest else []
      | [] => []
      end
  end.

Definition EOF : Z := -1.

(** [sscanf(str, format, ...)]: the number of arguments assigned, or [EOF]
    when the input ends before the first conversion; and the arguments. *)
Definition sscanf (str format : string) : Z * list arg :=
  let input := list_ascii_of_string str in
  let args := scan (parse_format (list_ascii_of_string format)) input in
  let n :=
    match args, skip_space input with
    | [], [] => EOF
    | _, _ => Z.of_nat (length args)
    end in
  (n, args).

(** ** Epochs *)

(** The reference types of casacore's [MEpoch]. *)
Inductive MEpoch_Types : Type :=
| LAST | LMST | GMST1 | GAST | UT1 | UT2 | UTC | TAI | TDT | TCG | TDB | TCB.

(** An [MEpoch]: the instant, as the [MVEpoch] it was built from, and the
    reference it is given in. *)
Record MEpoch (V : Type) : Type := mkMEpoch {
  epoch_value : V;
  epoch_type : MEpoch_Types
}.
Arguments mkMEpoch {V} epoch_value epoch_type.
Arguments epoch_value {V} m.
Arguments epoch_type {V} m.

(** The format string of [str2MEpoch], and the message of its exception
    (spelt as in the source). *)
Definition time_format : string := "%d-%d-%d-%d:%d:%lf".
Definition invalid_string_msg : string :=
  "Invalid String enountered in str2MEpoch()".

(** An exception thrown while an argument is evaluated leaves the
    enclosing expression. *)
Definition result_map {A B} (f : A -> B) (r : result A) : result B :=
  match r with
  | Ok a => Ok (f a)
  | Throw e => Throw e
  | Unspecified => Unspecified
  end.

Section Str2MEpoch.

(** What casacore supplies, with the arithmetic it does: the type [double]
    of the offset; the classes [Time], [MVTime] and [MVEpoch]; the
    constructor [Time(year, month, day, hour, min, sec)], or the way it
    fails; [Time::operator+(double)]; and the conversions [MVTime(Time)] and
    [MVEpoch(MVTime)]. *)
Variables double Time_t MVTime_t MVEpoch_t : Type.
Variable Time : Z -> Z -> Z -> Z -> Z -> lf -> result Time_t.
Variable Time_plus : Time_t -> double -> Time_t.
Variable MVTime : Time_t -> MVTime_t.
Variable MVEpoch : MVTime_t -> MVEpoch_t.

(** [str2MEpoch(time, offset)].
    <<
      if (sscanf(time, "%d-%d-%d-%d:%d:%lf", &yy, &MM, &dd, &hh, &mm, &ss) != 6)
        throw std::runtime_error("Invalid String enountered in str2MEpoch()");
      return MEpoch(MVEpoch(MVTime(Time(yy, MM, dd, hh, mm, ss)+offset)), MEpoch::UTC);
    >>
    Six conversions assign five [int]s and a [double], so the last branch
    of the [match] is not reached. *)
Definition str2MEpoch (time : string) (offset : double) : result (MEpoch MVEpoch_t) :=
  let '(n, args) := sscanf time time_format in
  if negb (n =? 6)%Z
  then Throw (runtime_error invalid_string_msg)
  else
    match args with
    | [arg_int yy; arg_int MM; arg_int dd; arg_int hh; arg_int mm; arg_double ss] =>
        result_map (fun t => mkMEpoch (MVEpoch (MVTime (Time_plus t offset))) UTC)
          (Time yy MM dd hh mm ss)
    | _ => Unspecified
    end.

End Str2MEpoch.

Arguments str2MEpoch {double Time_t MVTime_t MVEpoch_t}
  Time Time_plus MVTime MVEpoch time offset.

(** casacore in exact arithmetic, for the examples: an instant is a real
    number of seconds, [Time::operator+] adds seconds, and the conversions
    keep the instant.  [Time_of_day] stands in for the constructor: the
    seconds from midnight to the start of the minute. *)
Definition Time_of_day (yy MM dd hh mm : Z) (ss : lf) : result R :=
  Ok (IZR (hh * 3600 + mm * 60)).

Definition same_instant (t : R) : R := t.




(** ** The timestamp format as the specification words it *)

(** The specification's side of the comparison, not code: "a fixed textual
    format YYYY-MM-DD-HH:MM:SS.s", "the six-field numeric pattern (year,
    month, day, hour, minute, fractional seconds)", read as four digits,
    five groups of two digits, the separators as written, a point and at
    least one digit of fraction, and nothing else. *)
Inductive pattern_item : Type :=
| a_digit
| the_char (c : ascii).

Fixpoint match_pattern (p : list pattern_item) (l : list ascii) : option (list ascii) :=
  match p, l with
  | [], _ => Some l
  | a_digit :: p', c :: l' => if isdigit c then match_pattern p' l' else None
  | the_char a :: p', c :: l' => if Ascii.eqb a c then match_pattern p' l' else None
  | _ :: _, [] => None
  end.

Definition spec_timestamp_pattern : list pattern_item :=
  [a_digit; a_digit; a_digit; a_digit; the_char "-";
   a_digit; a_digit; the_char "-";
   a_digit; a_digit; the_char "-";
   a_digit; a_digit; the_char ":";
   a_digit; a_digit; the_char ":";
   a_digit; a_digit; the_char "."]%char.

Definition spec_conforms (time : string) : bool :=
  match match_pattern spec_timestamp_pattern (list_ascii_of_string time) with
  | Some (c :: rest) => forallb isdigit (c :: rest)
  | _ => false
  end.

Close Scope string_scope.
Close Scope char_scope.
Close Scope Z_scope.


(** What may follow the seconds of a timestamp without being taken for a
    part of them: nothing, or a character that is neither a digit nor the
    mark of an exponent. *)
Definition ends_number (l : list ascii) : Prop :=
  match l with
  | c :: _ => isdigit c = false /\ Ascii.eqb (tolower c) "e" = false
  | [] => True
  end.

(** ** The sub-tables of a measurement set *)

(** The reference types of casacore's [MDirection] the code names, and a
    few of the others. *)
Inductive MDirection_Types : Type :=
| J2000 | JMEAN | JTRUE | APP | B1950 | GALACTIC | HADEC | AZEL.

(** An [MDirection]: two angles, in degrees, and the reference they are
    given in. *)
Record MDirection : Type := mkMDirection {
  dir_lon : R;
  dir_lat : R;
  dir_ref : MDirection_Types
}.

(** [MDirection(Quantity(0.0, "deg"), Quantity(90.0, "deg"), MDirection::AZEL)] *)
Definition zenith_AZEL : MDirection := mkMDirection 0 90 AZEL.

(** What a cell of a table holds.  A measure cell holds the measure that
    was put; the conversion casacore applies when the column is tied to
    another reference is not modelled. *)
Inductive cell : Type :=
| Int_cell (z : Z)
| Double_cell (x : R)
| Bool_cell (b : bool)
| String_cell (s : string)
| ArrayDouble_cell (a : Array R)
| ArrayComplex_cell (a : Array Complex)
| ArrayString_cell (a : Array string)
| Direction_cell (d : MDirection)
| Directions_cell (v : list MDirection).

(** A row: the cells written so far, by the accessor of their column in
    casacore's [MS...Columns] classes.  A table: its rows. *)
Abbreviation Row := (gmap string cell) (only parsing).
Abbreviation MSTable := (list (gmap string cell)) (only parsing).

(** [table.nrow()], [table.addRow(n)]: the new rows have no cell written. *)
Definition nrow : M MSTable nat := fun t => (Ok (length t), t).

Definition addRow (n : nat) : M MSTable unit :=
  fun t => (Ok tt, t ++ replicate n (∅ : gmap string cell)).

(** [cols.column().put(r, v)].  The source never checks that row [r]
    exists; what casacore does when it does not is left open. *)
Definition col_put (column : string) (r : nat) (v : cell) : M MSTable unit :=
  fun t =>
    match t !! r with
    | Some row => (Ok tt, <[r := <[column := v]> row]> t)
    | None => (Unspecified, t)
    end.

(** [cols.column().putColumn(m)] for a column of vectors of length three:
    column [r] of the matrix goes to row [r].  casacore throws unless the
    matrix has one column per row of the table. *)
Definition putColumn3 (column : string) (m : Matrix) : M MSTable unit :=
  fun t =>
    if (length m =? length t)%nat
    then (Ok tt,
          zip_with (fun (v : Vector3) (row : gmap string cell) =>
                      <[column := ArrayDouble_cell
                                    (mkArray [3] [vget 0 v; vget 1 v; vget 2 v])]> row)
            m t)
    else (Throw AipsError, t).

Open Scope cxx_scope.

(** A [for] loop over the values of [l]. *)
Fixpoint for_each {St A} (l : list A) (body : A -> M St unit) : M St unit :=
  match l with
  | [] => ret tt
  | x :: l' => body x ;;; for_each l' body
  end.

(** [std::ostream << int]; [std::setw(w)] with [std::setfill(fill)] pads on
    the left up to the width [w]. *)
Definition decimal (n : nat) : string := NilEmpty.string_of_uint (Nat.to_uint n).

Definition setw_setfill (w : nat) (fill : ascii) (s : string) : string :=
  (string_of_list_ascii (replicate (w - String.length s) fill) ++ s)%string.

Section MeasurementSet.

(** The constants of [ms_funcs.h]. *)
Variable ANT_NAME STATION_NAME ANTENNA_TYPE ANTENNA_MOUNT : string.
Variable ANTENNA_DISH_DIAMETER : R.
Variable FIELD_NAME OBSERVER PROJECT TELESCOPE_NAME : string.

(** [std::ostream << double], and casacore's [setDirectionRef] of the
    columns classes. *)
Variable format_double : R -> string.
Variable setDirectionRef : MDirection_Types -> M MSTable unit.

(** [fillAntTab(ant, nAnt, itrfPos)]
    <<
      ant.addRow(nAnt);
      for (antNum=0; antNum<nAnt; antNum++) {
        outStr << ANT_NAME << std::setw(3) << std::setfill('0') << antNum+1;
        cols.name().put(antNum, outStr.str());
        cols.station().put(antNum, STATION_NAME);
        cols.type().put(antNum, ANTENNA_TYPE);
        cols.mount().put(antNum, ANTENNA_MOUNT);
        cols.offset().put(antNum, Vector<Double>(3, 0));
        cols.dishDiameter().put(antNum, ANTENNA_DISH_DIAMETER);
      }
      cols.position().putColumn(itrfPos);
      return antNum;
    >> *)
Definition antenna_name (antNum : nat) : string :=
  (ANT_NAME ++ setw_setfill 3 "0" (decimal (antNum + 1)))%string.

Definition fillAntTab_body (antNum : nat) : M MSTable unit :=
  col_put "name" antNum (String_cell (antenna_name antNum)) ;;;
  col_put "station" antNum (String_cell STATION_NAME) ;;;
  col_put "type" antNum (String_cell ANTENNA_TYPE) ;;;
  col_put "mount" antNum (String_cell ANTENNA_MOUNT) ;;;
  col_put "offset" antNum (ArrayDouble_cell (mkArray [3] [0; 0; 0]%R)) ;;;
  col_put "dishDiameter" antNum (Double_cell ANTENNA_DISH_DIAMETER).

Definition fillAntTab (nAnt : nat) (itrfPos : Matrix) : M MSTable nat :=
  addRow nAnt ;;;
  for_each (seq 0 nAnt) fillAntTab_body ;;;
  putColumn3 "position" itrfPos ;;;
  ret nAnt.

(** [fillFeedTab(feed, nAnt)]
    <<
      feed.addRow(nAnt);
      Vector<Double> position(3, 0.0);
      Matrix<Double> beamOffset(2, 2, 0.0);
      Vector<String> polType(2); polType(0) = "X"; polType(1) = "Y";
      Matrix<Complex> polResponse(2, 2, 0.0);
      polResponse(0, 0) = 1; polResponse(1, 1) = 1;
      Vector<Double> receptorAngle(2, 0.0);
      for (antNum=0; antNum<nAnt; antNum++) {
        cols.position().put(antNum, position);
        cols.beamOffset().put(antNum, beamOffset);
        cols.polarizationType().put(antNum, polType);
        cols.polResponse().put(antNum, polResponse);
        cols.receptorAngle().put(antNum, receptorAngle);
        cols.antennaId().put(antNum, antNum);
        cols.beamId().put(antNum, -1);
        cols.feedId().put(antNum, 0);
        cols.interval().put(antNum, 1e30);
        cols.numReceptors().put(antNum, 2);
        cols.spectralWindowId().put(antNum, -1);
        cols.time().put(antNum, 0);
      }
      return antNum;
    >>
    The matrices are held column by column. *)
Definition fillFeedTab_body (antNum : nat) : M MSTable unit :=
  let position := mkArray [3] [0; 0; 0]%R in
  let beamOffset := mkArray [2; 2] [0; 0; 0; 0]%R in
  let polType := mkArray [2] ["X"; "Y"]%string in
  let polResponse : Array Complex :=
    mkArray [2; 2] [(1, 0); (0, 0); (0, 0); (1, 0)]%R in
  let receptorAngle := mkArray [2] [0; 0]%R in
  col_put "position" antNum (ArrayDouble_cell position) ;;;
  col_put "beamOffset" antNum (ArrayDouble_cell beamOffset) ;;;
  col_put "polarizationType" antNum (ArrayString_cell polType) ;;;
  col_put "polResponse" antNum (ArrayComplex_cell polResponse) ;;;
  col_put "receptorAngle" antNum (ArrayDouble_cell receptorAngle) ;;;
  col_put "antennaId" antNum (Int_cell (Z.of_nat antNum)) ;;;
  col_put "beamId" antNum (Int_cell (-1)) ;;;
  col_put "feedId" antNum (Int_cell 0) ;;;
  col_put "interval" antNum (Double_cell 1e30) ;;;
  col_put "numReceptors" antNum (Int_cell 2) ;;;
  col_put "spectralWindowId" antNum (Int_cell (-1)) ;;;
  col_put "time" antNum (Double_cell 0).

Definition fillFeedTab (nAnt : nat) : M MSTable nat :=
  addRow nAnt ;;;
  for_each (seq 0 nAnt) fillFeedTab_body ;;;
  ret nAnt.

(** [fillFieldTab(field, dir)]
    <<
      if (dir == NULL) {
        cols.setDirectionRef(MDirection::AZEL);
        zenith = Vector<MDirection>(1, MDirection(.., MDirection::AZEL));
      } else {
        zenith = Vector<MDirection>(1, *dir);
      }
      field.addRow();
      cols.name().put(0, FIELD_NAME);
      cols.delayDirMeasCol().put(0, zenith);
      cols.phaseDirMeasCol().put(0, zenith);
      cols.referenceDirMeasCol().put(0, zenith);
      cols.sourceId().put(0, 0);
      return 0;
    >> *)
Definition fillFieldTab (dir : option MDirection) : M MSTable nat :=
  let* zenith :=
    match dir with
    | None => setDirectionRef AZEL ;;; ret [zenith_AZEL]
    | Some d => ret [d]
    end in
  addRow 1 ;;;
  col_put "name" 0 (String_cell FIELD_NAME) ;;;
  col_put "delayDirMeasCol" 0 (Directions_cell zenith) ;;;
  col_put "phaseDirMeasCol" 0 (Directions_cell zenith) ;;;
  col_put "referenceDirMeasCol" 0 (Directions_cell zenith) ;;;
  col_put "sourceId" 0 (Int_cell 0) ;;;
  ret 0%nat.

(** [addField(field, name, dir)]: as [fillFieldTab], with the row number
    read before the row is added; the source identifier goes to row 0.
    <<
      int nrow = field.nrow();
      if (dir == NULL) { .. } else { .. }
      field.addRow();
      cols.name().put(nrow, name);
      cols.delayDirMeasCol().put(nrow, dirVector);
      cols.phaseDirMeasCol().put(nrow, dirVector);
      cols.referenceDirMeasCol().put(nrow, dirVector);
      cols.sourceId().put(0, 0);
      return 0;
    >> *)
Definition addField (name : string) (dir : option MDirection) : M MSTable nat :=
  let* nrow := nrow in
  let* dirVector :=
    match dir with
    | None => setDirectionRef AZEL ;;; ret [zenith_AZEL]
    | Some d => ret [d]
    end in
  addRow 1 ;;;
  col_put "name" nrow (String_cell name) ;;;
  col_put "delayDirMeasCol" nrow (Directions_cell dirVector) ;;;
  col_put "phaseDirMeasCol" nrow (Directions_cell dirVector) ;;;
  col_put "referenceDirMeasCol" nrow (Directions_cell dirVector) ;;;
  col_put "sourceId" 0 (Int_cell 0) ;;;
  ret 0%nat.

(** [fillObservationTab(observation, startTime, finishTime)]
    <<
      observation.addRow();
      timeRange[0] = startTime; timeRange[1] = finishTime;
      observationCols.timeRange().put(0, timeRange);
      observationCols.observer().put(0, OBSERVER);
      observationCols.project().put(0, PROJECT);
      observationCols.telescopeName().put(0, TELESCOPE_NAME);
      return 0;
    >> *)
Definition fillObservationTab (startTime finishTime : R) : M MSTable nat :=
  addRow 1 ;;;
  col_put "timeRange" 0 (ArrayDouble_cell (mkArray [2] [startTime; finishTime])) ;;;
  col_put "observer" 0 (String_cell OBSERVER) ;;;
  col_put "project" 0 (String_cell PROJECT) ;;;
  col_put "telescopeName" 0 (String_cell TELESCOPE_NAME) ;;;
  ret 0%nat.

(** [updateObservationTab(observation, startTime, finishTime)] *)
Definition updateObservationTab (startTime finishTime : R) : M MSTable nat :=
  col_put "timeRange" 0 (ArrayDouble_cell (mkArray [2] [startTime; finishTime])) ;;;
  ret 0%nat.

(** [fillPointingTab(pointing, nAnt, time, dir)]
    <<
      if (dir == NULL) {
        cols.setDirectionRef(MDirection::AZEL);
        zenith = Vector<MDirection>(1, MDirection(.., MDirection::AZEL));
      } else {
        zenith = Vector<MDirection>(1, *dir);
      }
      pointing.addRow(nAnt);
      for (antNum=0; antNum<nAnt; antNum++) {
        cols.directionMeasCol().put(antNum, zenith);
        cols.antennaId().put(antNum, antNum);
        cols.interval().put(antNum, 1e30);
        cols.numPoly().put(antNum, 0);
        cols.targetMeasCol().put(antNum, zenith);
        cols.time().put(antNum, 0);
        cols.timeOrigin().put(antNum, time);
        cols.tracking().put(antNum, 0);
      }
      return antNum;
    >> *)
Definition fillPointingTab_body (zenith : list MDirection) (time : R) (antNum : nat)
  : M MSTable unit :=
  col_put "directionMeasCol" antNum (Directions_cell zenith) ;;;
  col_put "antennaId" antNum (Int_cell (Z.of_nat antNum)) ;;;
  col_put "interval" antNum (Double_cell 1e30) ;;;
  col_put "numPoly" antNum (Int_cell 0) ;;;
  col_put "targetMeasCol" antNum (Directions_cell zenith) ;;;
  col_put "time" antNum (Double_cell 0) ;;;
  col_put "timeOrigin" antNum (Double_cell time) ;;;
  col_put "tracking" antNum (Bool_cell false).

Definition fillPointingTab (nAnt : nat) (time : R) (dir : option MDirection)
  : M MSTable nat :=
  let* zenith :=
    match dir with
    | None => setDirectionRef AZEL ;;; ret [zenith_AZEL]
    | Some d => ret [d]
    end in
  addRow nAnt ;;;
  for_each (seq 0 nAnt) (fillPointingTab_body zenith time) ;;;
  ret nAnt.

(** [fillSpWindowTab(spw, nFreq, cFreq, bw)]
    <<
      int currRow = spw.nrow();
      spw.addRow();
      double refFreq = cFreq - bw / 2;
      double chanBW = bw / nFreq;
      Vector<Double> chanFreq(nFreq);
      for (int i=0; i<nFreq; i++)
        chanFreq[i] = refFreq + (i+0.5) * chanBW;
      Vector<Double> vChanBW(nFreq, chanBW);
      cols.measFreqRef().put(currRow, 1);
      cols.chanFreq().put(currRow, chanFreq);
      cols.refFrequency().put(currRow, refFreq);
      cols.chanWidth().put(currRow, vChanBW);
      cols.effectiveBW().put(currRow, vChanBW);
      cols.resolution().put(currRow, vChanBW);
      cols.freqGroupName().put(currRow, "Group 1");
      s << cFreq;
      cols.name().put(currRow, s.str().c_str());
      cols.netSideband().put(currRow, 1);
      cols.numChan().put(currRow, nFreq);
      cols.totalBandwidth().put(currRow, bw);
      return currRow;
    >> *)
Definition fillSpWindowTab_chanFreq (nFreq : nat) (refFreq chanBW : R) : list R :=
  fold_left (fun chanFreq i => <[i := (refFreq + (INR i + 0.5) * chanBW)%R]> chanFreq)
    (seq 0 nFreq) (replicate nFreq 0%R).

Definition fillSpWindowTab (nFreq : nat) (cFreq bw : R) : M MSTable nat :=
  let* currRow := nrow in
  addRow 1 ;;;
  let refFreq := (cFreq - bw / 2)%R in
  let chanBW := (bw / INR nFreq)%R in
  let chanFreq := fillSpWindowTab_chanFreq nFreq refFreq chanBW in
  let vChanBW := replicate nFreq chanBW in
  col_put "measFreqRef" currRow (Int_cell 1) ;;;
  col_put "chanFreq" currRow (ArrayDouble_cell (mkArray [nFreq] chanFreq)) ;;;
  col_put "refFrequency" currRow (Double_cell refFreq) ;;;
  col_put "chanWidth" currRow (ArrayDouble_cell (mkArray [nFreq] vChanBW)) ;;;
  col_put "effectiveBW" currRow (ArrayDouble_cell (mkArray [nFreq] vChanBW)) ;;;
  col_put "resolution" currRow (ArrayDouble_cell (mkArray [nFreq] vChanBW)) ;;;
  col_put "freqGroupName" currRow (String_cell "Group 1") ;;;
  col_put "name" currRow (String_cell (format_double cFreq)) ;;;
  col_put "netSideband" currRow (Int_cell 1) ;;;
  col_put "numChan" currRow (Int_cell (Z.of_nat nFreq)) ;;;
  col_put "totalBandwidth" currRow (Double_cell bw) ;;;
  ret currRow.

(** [fillSourceTab(source, startTime, finishTime, dir)]
    <<
      if (dir == NULL) {
        cols.setDirectionRef(MDirection::AZEL);
        zenith = MDirection(.., MDirection::AZEL);
      } else {
        zenith = *dir;
      }
      source.addRow();
      cols.sourceId().put(0, 0);
      cols.time().put(0, (finishTime + startTime) / 2);
      cols.interval().put(0, finishTime - startTime);
      cols.spectralWindowId().put(0, -1);
      cols.numLines().put(0, 0);
      cols.name().put(0, FIELD_NAME);
      cols.calibrationGroup().put(0, 0);
      cols.code().put(0, EMPTY);    // EMPTY: the empty string literal
      cols.directionMeas().put(0, zenith);
      cols.properMotion().put(0, Vector<Double>(2, 0));
      return 0;
    >> *)
Definition fillSourceTab (startTime finishTime : R) (dir : option MDirection)
  : M MSTable nat :=
  let* zenith :=
    match dir with
    | None => setDirectionRef AZEL ;;; ret zenith_AZEL
    | Some d => ret d
    end in
  addRow 1 ;;;
  col_put "sourceId" 0 (Int_cell 0) ;;;
  col_put "time" 0 (Double_cell ((finishTime + startTime) / 2)) ;;;
  col_put "interval" 0 (Double_cell (finishTime - startTime)) ;;;
  col_put "spectralWindowId" 0 (Int_cell (-1)) ;;;
  col_put "numLines" 0 (Int_cell 0) ;;;
  col_put "name" 0 (String_cell FIELD_NAME) ;;;
  col_put "calibrationGroup" 0 (Int_cell 0) ;;;
  col_put "code" 0 (String_cell EmptyString) ;;;
  col_put "directionMeas" 0 (Direction_cell zenith) ;;;
  col_put "properMotion" 0 (ArrayDouble_cell (mkArray [2] [0; 0]%R)) ;;;
  ret 0%nat.

(** [updateSourceTab(source, startTime, finishTime)] *)
Definition updateSourceTab (startTime finishTime : R) : M MSTable nat :=
  col_put "time" 0 (Double_cell ((finishTime + startTime) / 2)) ;;;
  col_put "interval" 0 (Double_cell (finishTime - startTime)) ;;;
  ret 0%nat.

End MeasurementSet.

Close Scope cxx_scope.


(** ** The rows the fill functions write

    The cells each function puts, in the order of the puts, as one update
    of the row they go to.  The properties state the functions against
    these. *)

Definition spw_row (format_double : R -> string) (nFreq : nat) (cFreq bw : R)
  : gmap string cell :=
  let refFreq := (cFreq - bw / 2)%R in
  let chanBW := (bw / INR nFreq)%R in
  let vChanBW := ArrayDouble_cell (mkArray [nFreq] (replicate nFreq chanBW)) in
  <["totalBandwidth" := Double_cell bw]>
  (<["numChan" := Int_cell (Z.of_nat nFreq)]>
  (<["netSideband" := Int_cell 1]>
  (<["name" := String_cell (format_double cFreq)]>
  (<["freqGroupName" := String_cell "Group 1"]>
  (<["resolution" := vChanBW]>
  (<["effectiveBW" := vChanBW]>
  (<["chanWidth" := vChanBW]>
  (<["refFrequency" := Double_cell refFreq]>
  (<["chanFreq" := ArrayDouble_cell
       (mkArray [nFreq] (fillSpWindowTab_chanFreq nFreq refFreq chanBW))]>
  (<["measFreqRef" := Int_cell 1]> ∅)))))))))).

Definition obs_row (OBSERVER PROJECT TELESCOPE_NAME : string)
    (startTime finishTime : R) (row : gmap string cell) : gmap string cell :=
  <["telescopeName" := String_cell TELESCOPE_NAME]>
  (<["project" := String_cell PROJECT]>
  (<["observer" := String_cell OBSERVER]>
  (<["timeRange" := ArrayDouble_cell (mkArray [2] [startTime; finishTime])]> row))).

Definition src_row (FIELD_NAME : string) (startTime finishTime : R)
    (zenith : MDirection) (row : gmap string cell) : gmap string cell :=
  <["properMotion" := ArrayDouble_cell (mkArray [2] [0; 0]%R)]>
  (<["directionMeas" := Direction_cell zenith]>
  (<["code" := String_cell EmptyString]>
  (<["calibrationGroup" := Int_cell 0]>
  (<["name" := String_cell FIELD_NAME]>
  (<["numLines" := Int_cell 0]>
  (<["spectralWindowId" := Int_cell (-1)]>
  (<["interval" := Double_cell (finishTime - startTime)]>
  (<["time" := Double_cell ((finishTime + startTime) / 2)]>
  (<["sourceId" := Int_cell 0]> row))))))))).

Definition fld_row (name : string) (dirVector : list MDirection)
    (row : gmap string cell) : gmap string cell :=
  <["referenceDirMeasCol" := Directions_cell dirVector]>
  (<["phaseDirMeasCol" := Directions_cell dirVector]>
  (<["delayDirMeasCol" := Directions_cell dirVector]>
  (<["name" := String_cell name]> row))).

Definition feed_row (antNum : nat) (row : gmap string cell) : gmap string cell :=
  <["time" := Double_cell 0]>
  (<["spectralWindowId" := Int_cell (-1)]>
  (<["numReceptors" := Int_cell 2]>
  (<["interval" := Double_cell 1e30]>
  (<["feedId" := Int_cell 0]>
  (<["beamId" := Int_cell (-1)]>
  (<["antennaId" := Int_cell (Z.of_nat antNum)]>
  (<["receptorAngle" := ArrayDouble_cell (mkArray [2] [0; 0]%R)]>
  (<["polResponse" := ArrayComplex_cell
       (mkArray [2; 2] [(1, 0); (0, 0); (0, 0); (1, 0)]%R)]>
  (<["polarizationType" := ArrayString_cell (mkArray [2] ["X"; "Y"]%string)]>
  (<["beamOffset" := ArrayDouble_cell (mkArray [2; 2] [0; 0; 0; 0]%R)]>
  (<["position" := ArrayDouble_cell (mkArray [3] [0; 0; 0]%R)]> row))))))))))).

Definition ant_row (name STATION_NAME ANTENNA_TYPE ANTENNA_MOUNT : string)
    (ANTENNA_DISH_DIAMETER : R) (row : gmap string cell) : gmap string cell :=
  <["dishDiameter" := Double_cell ANTENNA_DISH_DIAMETER]>
  (<["offset" := ArrayDouble_cell (mkArray [3] [0; 0; 0]%R)]>
  (<["mount" := String_cell ANTENNA_MOUNT]>
  (<["type" := String_cell ANTENNA_TYPE]>
  (<["station" := String_cell STATION_NAME]>
  (<["name" := String_cell name]> row))))).

Definition pnt_row (zenith : list MDirection) (time : R) (antNum : nat)
    (row : gmap string cell) : gmap string cell :=
  <["tracking" := Bool_cell false]>
  (<["timeOrigin" := Double_cell time]>
  (<["time" := Double_cell 0]>
  (<["targetMeasCol" := Directions_cell zenith]>
  (<["numPoly" := Int_cell 0]>
  (<["interval" := Double_cell 1e30]>
  (<["antennaId" := Int_cell (Z.of_nat antNum)]>
  (<["directionMeasCol" := Directions_cell zenith]> row))))))).

(** * Properties *)

(** ** Writing a run of elements through a counter *)

Section SequentialWrites.
Context {A B : Type} (f : A -> B).

(** The loop [for x in xs: v[i++] = f x], started with the counter at [i],
    replaces the segment of [v] from [i] on by the images of [xs]. *)
Lemma write_run (xs : list A) (v : list B) (i : nat) :
  i + length xs <= length v ->
  fold_left (fun '(v, i) x => (<[i := f x]> v, S i)) xs (v, i)
  = (take i v ++ map f xs ++ drop (i + length xs) v, i + length xs).
Proof.
  revert v i. induction xs as [|x xs IH]; intros v i Hlen; simpl in *.
  - rewrite Nat.add_0_r, take_drop. reflexivity.
  - rewrite IH by (rewrite length_insert; lia).
    rewrite (take_S_r _ i (f x)) by (apply list_lookup_insert_eq; lia).
    rewrite take_insert_ge by lia.
    rewrite drop_insert_lt by lia.
    rewrite <- app_assoc. simpl.
    rewrite !Nat.add_succ_r. reflexivity.
Qed.

Lemma write_all (xs : list A) (v : list B) :
  length xs = length v ->
  fold_left (fun '(v, i) x => (<[i := f x]> v, S i)) xs (v, 0)
  = (map f xs, length xs).
Proof.
  intros Hlen. rewrite write_run by (simpl; lia). simpl.
  rewrite drop_ge by lia. rewrite app_nil_r. reflexivity.
Qed.

(** Whatever the sizes, the loop keeps the size of [v]. *)
Lemma write_run_length (xs : list A) (v : list B) (i : nat) :
  length (fst (fold_left (fun '(v, i) x => (<[i := f x]> v, S i)) xs (v, i)))
  = length v.
Proof.
  revert v i. induction xs as [|x xs IH]; intros v i; simpl; [reflexivity|].
  rewrite IH. apply length_insert.
Qed.

End SequentialWrites.

(** The loop [for pos: a[pos] = g(i++)] over the positions [p, p+n). *)
Lemma write_positions {B : Type} (g : nat -> B) (n : nat) (a : list B) (p i : nat) :
  p + n <= length a ->
  fold_left (fun '(a, i) pos => (<[pos := g i]> a, S i)) (seq p n) (a, i)
  = (take p a ++ map g (seq i n) ++ drop (p + n) a, i + n).
Proof.
  revert a p i. induction n as [|n IH]; intros a p i Hlen; simpl.
  - rewrite !Nat.add_0_r, take_drop. reflexivity.
  - rewrite IH by (rewrite length_insert; lia).
    rewrite (take_S_r _ p (g i)) by (apply list_lookup_insert_eq; lia).
    rewrite take_insert_ge by lia.
    rewrite drop_insert_lt by lia.
    rewrite <- app_assoc. simpl.
    rewrite !Nat.add_succ_r. reflexivity.
Qed.

Lemma write_positions_length {B : Type} (g : nat -> B) (ps : list nat) (a : list B) (i : nat) :
  length (fst (fold_left (fun '(a, i) pos => (<[pos := g i]> a, S i)) ps (a, i)))
  = length a.
Proof.
  revert a i. induction ps as [|p ps IH]; intros a i; simpl; [reflexivity|].
  rewrite IH. apply length_insert.
Qed.

Lemma map_lookup_seq {A B : Type} (f : A -> B) (d : A) (l : list A) :
  map (fun i => f (default d (l !! i))) (seq 0 (length l)) = map f l.
Proof.
  induction l as [|x l IH]; simpl; [reflexivity|].
  f_equal. rewrite <- seq_shift, map_map. exact IH.
Qed.

Lemma lookup_map {A B : Type} (f : A -> B) (l : list A) (i : nat) :
  map f l !! i = option_map f (l !! i).
Proof.
  revert i. induction l as [|x l IH]; intros [|i]; simpl; auto.
Qed.

(** ** Flag repacking *)

Lemma boolArray2charVector_loop_eq (bs : list bool) (charVec : list char) :
  length bs = length charVec ->
  boolArray2charVector_loop bs charVec = (map bool2char bs, length bs).
Proof.
  intros H. unfold boolArray2charVector_loop.
  apply (write_all bool2char); assumption.
Qed.

Lemma charVector2boolArray_loop_eq (charVec : list char) (bs : list bool) :
  length bs = length charVec ->
  charVector2boolArray_loop charVec bs = (map char2bool charVec, length bs).
Proof.
  intros H. unfold charVector2boolArray_loop.
  rewrite (write_positions (fun i => char2bool (default 0%Z (charVec !! i))))
    by (simpl; lia).
  simpl. rewrite drop_ge by lia. rewrite app_nil_r.
  rewrite H, map_lookup_seq. reflexivity.
Qed.

Lemma char2bool_bool2char (b : bool) : char2bool (bool2char b) = b.
Proof. destruct b; reflexivity. Qed.

Lemma char2bool_true (c : char) : char2bool c = true <-> c <> 0%Z.
Proof.
  unfold char2bool. destruct (Z.eqb_spec c 0); simpl; split; congruence.
Qed.

(** What a call does, by the outcome of the size check. *)
Lemma boolArray2charVector_run (boolArr : Array bool) (charVec : list char) :
  boolArray2charVector boolArr charVec =
    if decide (product (shape boolArr) = length charVec)
    then (Ok tt, fst (boolArray2charVector_loop (elems boolArr) charVec))
    else (Throw (length_error mismatch_msg), charVec).
Proof.
  unfold boolArray2charVector, bind, get, put, throw.
  destruct (Nat.eqb_spec (product (shape boolArr)) (length charVec)) as [E|E];
    destruct (decide _); simpl; congruence.
Qed.

Lemma charVector2boolArray_run (charVec : list char) (boolArr : Array bool) :
  charVector2boolArray charVec boolArr =
    if decide (product (shape boolArr) = length charVec)
    then (Ok tt, mkArray (shape boolArr)
                   (fst (charVector2boolArray_loop charVec (elems boolArr))))
    else (Throw (length_error mismatch_msg), boolArr).
Proof.
  unfold charVector2boolArray, bind, get, put, throw.
  destruct (Nat.eqb_spec (product (shape boolArr)) (length charVec)) as [E|E];
    destruct (decide _); simpl; congruence.
Qed.

(** C4. Packing a boolean array [x] into a byte buffer of its element count
    and unpacking the bytes into an array of the shape of [x] gives [x]
    back: same shape, same elements in the same order. *)
Theorem flag_round_trip (x y : Array bool) (buf : list char) :
  wf_Array x -> wf_Array y -> shape y = shape x ->
  length buf = product (shape x) ->
  exists packed,
    boolArray2charVector x buf = (Ok tt, packed) /\
    length packed = length (elems x) /\
    charVector2boolArray packed y = (Ok tt, x).
Proof.
  unfold wf_Array. intros Hx Hy Hs Hb.
  exists (map bool2char (elems x)).
  rewrite boolArray2charVector_run, charVector2boolArray_run.
  rewrite Hs, length_map.
  destruct (decide (product (shape x) = length buf)) as [_|N]; [|congruence].
  destruct (decide (product (shape x) = length (elems x))) as [_|N]; [|congruence].
  rewrite boolArray2charVector_loop_eq by congruence.
  rewrite charVector2boolArray_loop_eq by (rewrite length_map; congruence).
  simpl. rewrite map_map.
  rewrite (map_ext (fun b => char2bool (bool2char b)) (fun b => b))
    by apply char2bool_bool2char.
  rewrite map_id. destruct x; auto.
Qed.

Lemma flag_round_trip_witness :
  exists packed,
    boolArray2charVector (mkArray [2; 2] [true; false; false; true]) [7; 7; 7; 7]%Z
      = (Ok tt, packed) /\
    length packed = 4 /\
    charVector2boolArray packed (mkArray [2; 2] [false; false; false; false])
      = (Ok tt, mkArray [2; 2] [true; false; false; true]).
Proof.
  apply (flag_round_trip (mkArray [2; 2] [true; false; false; true])
           (mkArray [2; 2] [false; false; false; false]) [7; 7; 7; 7]%Z);
    reflexivity.
Defined.

(** C5. Both conversions compare the element count of the boolean array
    with the size of the byte buffer: they throw [std::length_error] when
    the two differ and return when they agree; in no case does the
    destination change its size.  The element count is casacore's
    [shape().product()]: a default-constructed array, without axes, counts
    0 elements, goes with the empty buffer and with no other. *)
Theorem flag_size_check (boolArr : Array bool) (charVec : list char) :
  (product (shape boolArr) <> length charVec ->
     fst (boolArray2charVector boolArr charVec) = Throw (length_error mismatch_msg) /\
     fst (charVector2boolArray charVec boolArr) = Throw (length_error mismatch_msg)) /\
  (product (shape boolArr) = length charVec ->
     fst (boolArray2charVector boolArr charVec) = Ok tt /\
     fst (charVector2boolArray charVec boolArr) = Ok tt) /\
  length (snd (boolArray2charVector boolArr charVec)) = length charVec /\
  shape (snd (charVector2boolArray charVec boolArr)) = shape boolArr /\
  length (elems (snd (charVector2boolArray charVec boolArr))) = length (elems boolArr) /\
  boolArray2charVector (mkArray [] []) [] = (Ok tt, []) /\
  (charVec <> [] ->
     boolArray2charVector (mkArray [] []) charVec
     = (Throw (length_error mismatch_msg), charVec)).
Proof.
  assert (Hdefault : charVec <> [] ->
            boolArray2charVector (mkArray [] []) charVec
            = (Throw (length_error mismatch_msg), charVec)).
  { intros Hne. rewrite boolArray2charVector_run. cbn [shape product].
    destruct (decide (0 = length charVec)) as [E|_]; [|reflexivity].
    destruct charVec; [contradiction | discriminate E]. }
  assert (Hmain :
    (product (shape boolArr) <> length charVec ->
       fst (boolArray2charVector boolArr charVec) = Throw (length_error mismatch_msg) /\
       fst (charVector2boolArray charVec boolArr) = Throw (length_error mismatch_msg)) /\
    (product (shape boolArr) = length charVec ->
       fst (boolArray2charVector boolArr charVec) = Ok tt /\
       fst (charVector2boolArray charVec boolArr) = Ok tt) /\
    length (snd (boolArray2charVector boolArr charVec)) = length charVec /\
    shape (snd (charVector2boolArray charVec boolArr)) = shape boolArr /\
    length (elems (snd (charVector2boolArray charVec boolArr)))
    = length (elems boolArr)).
  { rewrite boolArray2charVector_run, charVector2boolArray_run.
    destruct (decide (product (shape boolArr) = length charVec)) as [E|E]; simpl.
    - repeat split; try congruence.
      + apply (write_run_length bool2char).
      + apply (write_positions_length
                 (fun i => char2bool (default 0%Z (charVec !! i)))).
    - repeat split; congruence. }
  destruct Hmain as (H1 & H2 & H3 & H4 & H5).
  split; [exact H1|]. split; [exact H2|]. split; [exact H3|].
  split; [exact H4|]. split; [exact H5|]. split; [reflexivity | exact Hdefault].
Qed.

Lemma flag_size_check_witness :
  fst (boolArray2charVector (mkArray [3] [true; false; true]) [0; 0]%Z)
    = Throw (length_error mismatch_msg) /\
  fst (charVector2boolArray [0; 0]%Z (mkArray [3] [true; false; true]))
    = Throw (length_error mismatch_msg).
Proof.
  apply (proj1 (flag_size_check (mkArray [3] [true; false; true]) [0; 0]%Z)).
  simpl. lia.
Defined.

(** C9. With matching sizes, [charVector2boolArray] sets flag [i] to true
    exactly when byte [i] is not zero: byte 0 gives false, every other
    value gives true.  So the values [bool2char] produces are read back as
    they were, and two buffers with zeros at the same places decode to the
    same array. *)
Theorem charVector2boolArray_nonzero (charVec : list char) (boolArr : Array bool) :
  wf_Array boolArr ->
  product (shape boolArr) = length charVec ->
  exists decoded,
    charVector2boolArray charVec boolArr = (Ok tt, decoded) /\
    shape decoded = shape boolArr /\
    length (elems decoded) = length charVec /\
    (forall i c, charVec !! i = Some c -> c <> 0%Z -> elems decoded !! i = Some true) /\
    (forall i, charVec !! i = Some 0%Z -> elems decoded !! i = Some false) /\
    (forall b, char2bool (bool2char b) = b) /\
    (forall charVec' : list char,
       length charVec' = length charVec ->
       (forall i c c', charVec !! i = Some c -> charVec' !! i = Some c' ->
                       (c = 0%Z <-> c' = 0%Z)) ->
       charVector2boolArray charVec' boolArr = (Ok tt, decoded)).
Proof.
  unfold wf_Array. intros Hwf Hsz.
  exists (mkArray (shape boolArr) (map char2bool charVec)).
  assert (Hrun : forall cv : list char, length cv = length charVec ->
            charVector2boolArray cv boolArr
            = (Ok tt, mkArray (shape boolArr) (map char2bool cv))).
  { intros cv Hcv. rewrite charVector2boolArray_run.
    destruct (decide _) as [_|N]; [|congruence].
    rewrite charVector2boolArray_loop_eq by congruence. reflexivity. }
  repeat split.
  - apply Hrun. reflexivity.
  - cbn [elems]. apply length_map.
  - intros i c Hi Hc. cbn [elems]. rewrite lookup_map, Hi. simpl.
    f_equal. apply char2bool_true. exact Hc.
  - intros i Hi. cbn [elems]. rewrite lookup_map, Hi. reflexivity.
  - apply char2bool_bool2char.
  - intros cv Hcv Hzero. rewrite (Hrun cv Hcv). do 2 f_equal.
    apply list_eq. intros i. rewrite !lookup_map.
    destruct (charVec !! i) as [c|] eqn:Hc, (cv !! i) as [c'|] eqn:Hc'; simpl.
    + f_equal. specialize (Hzero i c c' Hc Hc'). unfold char2bool.
      destruct (Z.eqb_spec c' 0), (Z.eqb_spec c 0); simpl; tauto.
    + apply lookup_ge_None in Hc'. apply lookup_lt_Some in Hc. lia.
    + apply lookup_ge_None in Hc. apply lookup_lt_Some in Hc'. lia.
    + reflexivity.
Qed.

Lemma charVector2boolArray_nonzero_witness :
  exists decoded,
    charVector2boolArray [0; 1; -1; 77]%Z (mkArray [4] [true; true; true; true])
      = (Ok tt, decoded) /\
    shape decoded = [4] /\
    length (elems decoded) = 4 /\
    (forall i c, [0; 1; -1; 77]%Z !! i = Some c -> c <> 0%Z ->
                 elems decoded !! i = Some true) /\
    (forall i, [0; 1; -1; 77]%Z !! i = Some 0%Z -> elems decoded !! i = Some false) /\
    (forall b, char2bool (bool2char b) = b) /\
    (forall charVec' : list char,
       length charVec' = 4 ->
       (forall i c c', [0; 1; -1; 77]%Z !! i = Some c -> charVec' !! i = Some c' ->
                       (c = 0%Z <-> c' = 0%Z)) ->
       charVector2boolArray charVec' (mkArray [4] [true; true; true; true])
         = (Ok tt, decoded)).
Proof.
  apply (charVector2boolArray_nonzero [0; 1; -1; 77]%Z
           (mkArray [4] [true; true; true; true])); reflexivity.
Defined.

(** C10. When the size check fails, the exception is thrown before the
    loop: the byte buffer, respectively the boolean array, is what it was
    before the call. *)
Theorem flag_mismatch_leaves_destination (boolArr : Array bool) (charVec : list char) :
  product (shape boolArr) <> length charVec ->
  boolArray2charVector boolArr charVec
    = (Throw (length_error mismatch_msg), charVec) /\
  charVector2boolArray charVec boolArr
    = (Throw (length_error mismatch_msg), boolArr).
Proof.
  intros Hne. rewrite boolArray2charVector_run, charVector2boolArray_run.
  destruct (decide _) as [E|_]; [contradiction|]. split; reflexivity.
Qed.

Lemma flag_mismatch_leaves_destination_witness :
  boolArray2charVector (mkArray [2] [true; true]) [5; 6; 7]%Z
    = (Throw (length_error mismatch_msg), [5; 6; 7]%Z) /\
  charVector2boolArray [5; 6; 7]%Z (mkArray [2] [true; true])
    = (Throw (length_error mismatch_msg), mkArray [2] [true; true]).
Proof.
  apply (flag_mismatch_leaves_destination (mkArray [2] [true; true]) [5; 6; 7]%Z).
  simpl. lia.
Defined.

(** ** The calibration reader *)

Lemma product_fold (shp : IPosition) :
  shp <> [] -> product shp = fold_right Nat.mul 1 shp.
Proof. destruct shp; [contradiction | reflexivity]. Qed.

Lemma product_app_row (shp : IPosition) (n : nat) :
  shp <> [] -> product (shp ++ [n]) = product shp * n.
Proof.
  intros Hne. rewrite !product_fold by (try exact Hne; destruct shp; discriminate).
  clear Hne. induction shp as [|k shp IH]; simpl; [lia|].
  rewrite IH. lia.
Qed.

Lemma length_resize {A} (n : nat) (d : A) (v : list A) : length (resize n d v) = n.
Proof.
  unfold resize. rewrite length_app, length_take, length_replicate. lia.
Qed.

Lemma length_concat_cells {A} (shp : IPosition) (cells : list (Array A)) :
  Forall (fun c => shape c = shp /\ wf_Array c) cells ->
  length (concat (map elems cells)) = product shp * length cells.
Proof.
  induction 1 as [|c cells [Hs Hw] _ IH]; simpl; [lia|].
  rewrite length_app, IH. unfold wf_Array in Hw. rewrite <- Hw, Hs. lia.
Qed.

Lemma conforming_true {A} (shp : IPosition) (cells : list (Array A)) :
  Forall (fun c => shape c = shp) cells -> conforming shp cells = true.
Proof.
  intros H. unfold conforming. apply forallb_forall. intros c Hc.
  apply bool_decide_eq_true. rewrite Forall_forall in H. apply H.
  apply list_elem_of_In. exact Hc.
Qed.

(** The loop over [ANTENNA1] leaves the state alone, and stops at the first
    row whose antenna index is not its row number. *)
Lemma check_antenna1_mismatch {St} (rows : list CalRow) (i r : nat) (row : CalRow) (s : St) :
  rows !! r = Some row -> ANTENNA1 row <> Z.of_nat (i + r) ->
  check_antenna1 i rows s = (Throw (length_error cal_shape_msg), s).
Proof.
  revert i r. induction rows as [|row0 rows IH]; intros i r Hr Hne; [discriminate|].
  simpl. destruct (Z.eqb_spec (ANTENNA1 row0) (Z.of_nat i)) as [E|E]; simpl.
  - destruct r as [|r]; simpl in Hr.
    + injection Hr as ->. rewrite Nat.add_0_r in Hne. contradiction.
    + apply (IH (S i) r Hr). rewrite Nat.add_succ_comm. exact Hne.
  - reflexivity.
Qed.

Lemma check_antenna1_match {St} (rows : list CalRow) (i : nat) (s : St) :
  (forall r row, rows !! r = Some row -> ANTENNA1 row = Z.of_nat (i + r)) ->
  check_antenna1 i rows s = (Ok tt, s).
Proof.
  revert i. induction rows as [|row0 rows IH]; intros i H; [reflexivity|].
  simpl. rewrite (H 0 row0 eq_refl), Nat.add_0_r, Z.eqb_refl. simpl.
  apply IH. intros r row Hr. rewrite Nat.add_succ_comm. apply (H (S r) row Hr).
Qed.

(** The reader, step by step, on a table with at least one row. *)
Lemma readCalTable_run (cal : Table) (row0 : CalRow) (rest : list CalRow)
    (gain : list Complex) (flag : list char) :
  cal = row0 :: rest ->
  readCalTable cal (gain, flag) =
    let num_gains := product (shape (CPARAM row0) ++ [length cal]) in
    let gains := concat (map elems (map CPARAM cal)) in
    if conforming (shape (CPARAM row0)) (map CPARAM cal) then
      if conforming (shape (FLAG row0)) (map FLAG cal) then
        let arr_flag := mkArray (shape (FLAG row0) ++ [length cal])
                          (concat (map elems (map FLAG cal))) in
        match boolArray2charVector arr_flag (resize num_gains 0%Z flag) with
        | (Ok _, flag') => check_antenna1 0 cal (gains, flag')
        | (Throw e, flag') => (Throw e, (gains, flag'))
        | (Unspecified, flag') => (Unspecified, (gains, flag'))
        end
      else (Throw AipsError, (gains, resize num_gains 0%Z flag))
    else (Throw AipsError,
          (resize num_gains Complex_zero gain, resize num_gains 0%Z flag)).
Proof.
  intros ->. unfold readCalTable. cbv beta iota zeta.
  set (cal := row0 :: rest).
  unfold bind, get, put, getColumn, ret, throw, on_snd.
  cbn [fst snd]. rewrite !length_map.
  destruct (conforming (shape (CPARAM row0)) (map CPARAM cal)); [|reflexivity].
  cbn [elems fst snd].
  destruct (conforming (shape (FLAG row0)) (map FLAG cal)); [|reflexivity].
  cbn [fst snd].
  destruct (boolArray2charVector _ _) as [[u|e|] flag']; reflexivity.
Qed.

(** C1 (as the code has it). A table with a row whose [ANTENNA1] is not its
    row number makes [readCalTable] throw, whatever else the table holds:
    casacore's exception for a column that cannot be read, or one of the
    two [std::length_error]s.  When the columns are uniform, the exception
    is the [std::length_error] of the antenna check, and it is thrown after
    the reading: [gain] and [flag] then hold the gains and the packed flags
    of the whole table. *)
Theorem readCalTable_mismatch (cal : Table) (gain : list Complex) (flag : list char)
    (r : nat) (row : CalRow) :
  cal !! r = Some row -> ANTENNA1 row <> Z.of_nat r ->
  (exists e st,
     readCalTable cal (gain, flag) = (Throw e, st) /\
     (e = AipsError \/ e = length_error mismatch_msg \/
      e = length_error cal_shape_msg)) /\
  (forall gshape fshape, uniform_cells gshape fshape cal ->
     readCalTable cal (gain, flag)
     = (Throw (length_error cal_shape_msg),
        (column_gains cal, map bool2char (column_flags cal)))).
Proof.
  intros Hr Hne.
  destruct cal as [|row0 rest]; [discriminate|].
  pose proof (readCalTable_run _ row0 rest gain flag eq_refl) as Hrun.
  cbv zeta in Hrun. set (cal := row0 :: rest) in *.
  assert (Hchk : forall s : list Complex * list Z,
            check_antenna1 0 cal s = (Throw (length_error cal_shape_msg), s)).
  { intros s. apply (check_antenna1_mismatch cal 0 r row s Hr). exact Hne. }
  split.
  - rewrite Hrun.
    destruct (conforming (shape (CPARAM row0)) (map CPARAM cal)); [|eauto 6].
    destruct (conforming (shape (FLAG row0)) (map FLAG cal)); [|eauto 6].
    cbv zeta. rewrite boolArray2charVector_run.
    destruct (decide _); [rewrite Hchk|]; eauto 6.
  - intros gshape fshape (Hgne & Hfne & Hprod & Hall).
    assert (H0 : shape (CPARAM row0) = gshape /\ shape (FLAG row0) = fshape).
    { apply Forall_inv in Hall. tauto. }
    destruct H0 as [Hg0 Hf0].
    assert (HG : Forall (fun c => shape c = gshape /\ wf_Array c) (map CPARAM cal)).
    { apply Forall_map. eapply Forall_impl; [exact Hall|]. simpl. tauto. }
    assert (HF : Forall (fun c => shape c = fshape /\ wf_Array c) (map FLAG cal)).
    { apply Forall_map. eapply Forall_impl; [exact Hall|]. simpl. tauto. }
    rewrite Hrun, Hg0, Hf0.
    rewrite (conforming_true gshape)
      by (eapply Forall_impl; [exact HG|]; simpl; tauto).
    rewrite (conforming_true fshape)
      by (eapply Forall_impl; [exact HF|]; simpl; tauto).
    cbv zeta. rewrite boolArray2charVector_run. cbn [shape elems].
    rewrite length_resize, !product_app_row, Hprod by assumption.
    destruct (decide _) as [_|N]; [|contradiction].
    rewrite boolArray2charVector_loop_eq.
    + rewrite Hchk. unfold column_gains, column_flags.
      rewrite !map_map. reflexivity.
    + rewrite length_resize, (length_concat_cells fshape _ HF).
      rewrite length_map, Hprod. reflexivity.
Qed.

Lemma readCalTable_mismatch_witness :
  (exists e st,
     readCalTable cal_021 ([], []) = (Throw e, st) /\
     (e = AipsError \/ e = length_error mismatch_msg \/
      e = length_error cal_shape_msg)) /\
  readCalTable cal_021 ([], [])
  = (Throw (length_error cal_shape_msg),
     (column_gains cal_021, map bool2char (column_flags cal_021))).
Proof.
  destruct (readCalTable_mismatch cal_021 [] [] 1
              (mkCalRow (mkArray [1] [(0, 1)%R]) (mkArray [1] [false]) 2))
    as [Hthrows Hstate]; [reflexivity | simpl; lia |].
  split; [exact Hthrows|].
  apply (Hstate [1] [1]).
  split; [discriminate|]. split; [discriminate|]. split; [reflexivity|].
  repeat constructor.
Defined.

(** C1 (as the specification has it) fails: on the table whose [ANTENNA1]
    column is [0, 2, 1] the call throws, and the vectors [gain] and [flag],
    empty before the call, hold three gains and three packed flags after
    it. *)
Lemma readCalTable_partial_output :
  readCalTable cal_021 ([], [])
  = (Throw (length_error cal_shape_msg),
     ([(1, 0)%R; (0, 1)%R; (2, 0)%R], [1; 0; 1]%Z)).
Proof. reflexivity. Qed.

(** A uniform table with one row per antenna, in antenna order, is read in
    full: [gain] holds the gains and [flag] one byte per flag, 1 for a set
    flag and 0 otherwise, whatever the two vectors held before. *)
Theorem readCalTable_simple_table (cal : Table) (gain : list Complex) (flag : list char)
    (gshape fshape : IPosition) :
  cal <> [] ->
  uniform_cells gshape fshape cal ->
  (forall r row, cal !! r = Some row -> ANTENNA1 row = Z.of_nat r) ->
  readCalTable cal (gain, flag)
  = (Ok tt, (column_gains cal, map bool2char (column_flags cal))).
Proof.
  intros Hne (Hgne & Hfne & Hprod & Hall) Hant.
  destruct cal as [|row0 rest]; [contradiction|].
  pose proof (readCalTable_run _ row0 rest gain flag eq_refl) as Hrun.
  cbv zeta in Hrun. set (cal := row0 :: rest) in *.
  assert (H0 : shape (CPARAM row0) = gshape /\ shape (FLAG row0) = fshape).
  { apply Forall_inv in Hall. tauto. }
  destruct H0 as [Hg0 Hf0].
  assert (HG : Forall (fun c => shape c = gshape /\ wf_Array c) (map CPARAM cal)).
  { apply Forall_map. eapply Forall_impl; [exact Hall|]. simpl. tauto. }
  assert (HF : Forall (fun c => shape c = fshape /\ wf_Array c) (map FLAG cal)).
  { apply Forall_map. eapply Forall_impl; [exact Hall|]. simpl. tauto. }
  rewrite Hrun, Hg0, Hf0.
  rewrite (conforming_true gshape)
    by (eapply Forall_impl; [exact HG|]; simpl; tauto).
  rewrite (conforming_true fshape)
    by (eapply Forall_impl; [exact HF|]; simpl; tauto).
  cbv zeta. rewrite boolArray2charVector_run. cbn [shape elems].
  rewrite length_resize, !product_app_row, Hprod by assumption.
  destruct (decide _) as [_|N]; [|contradiction].
  rewrite boolArray2charVector_loop_eq.
  - rewrite check_antenna1_match by exact Hant.
    unfold column_gains, column_flags. rewrite !map_map. reflexivity.
  - rewrite length_resize, (length_concat_cells fshape _ HF).
    rewrite length_map, Hprod. reflexivity.
Qed.

Lemma readCalTable_simple_table_witness :
  readCalTable cal_012 ([], [7; 7]%Z)
  = (Ok tt, (column_gains cal_012, map bool2char (column_flags cal_012))).
Proof.
  apply (readCalTable_simple_table cal_012 [] [7; 7]%Z [1] [1]).
  - discriminate.
  - split; [discriminate|]. split; [discriminate|]. split; [reflexivity|].
    repeat constructor.
  - intros [|[|[|r]]] row Hr; simpl in Hr; try discriminate;
      injection Hr as <-; reflexivity.
Defined.

(** ** The sea-level radius *)

Open Scope R_scope.

Lemma axes_ordered : 0 < minorAxis <= majorAxis.
Proof. unfold minorAxis, majorAxis. lra. Qed.

Lemma ellipse_bounds (a b c s : R) :
  0 < b <= a -> s * s + c * c = 1 ->
  b * b <= a * c * (a * c) + b * s * (b * s) <= a * a.
Proof.
  intros [Hb Hab] Hsc.
  assert (H1 : 0 <= (a * a - b * b) * (c * c)) by (apply Rmult_le_pos; nra).
  assert (H2 : 0 <= (a * a - b * b) * (s * s)) by (apply Rmult_le_pos; nra).
  assert (H3 : b * b * (s * s + c * c) = b * b) by (rewrite Hsc; ring).
  assert (H4 : a * a * (s * s + c * c) = a * a) by (rewrite Hsc; ring).
  split; nra.
Qed.

Lemma hypot_ellipse_bounds (t : R) :
  minorAxis <= hypot (majorAxis * cos t) (minorAxis * sin t) <= majorAxis.
Proof.
  pose proof axes_ordered as Hax.
  pose proof (sin2_cos2 t) as Hsc. unfold Rsqr in Hsc.
  pose proof (ellipse_bounds _ _ _ _ Hax Hsc) as [Hlo Hhi].
  destruct Hax as [Hb Hab]. unfold hypot. split.
  - apply Rle_trans with (sqrt (minorAxis * minorAxis)).
    + rewrite sqrt_square by lra. apply Rle_refl.
    + apply sqrt_le_1_alt. exact Hlo.
  - apply Rle_trans with (sqrt (majorAxis * majorAxis)).
    + apply sqrt_le_1_alt. exact Hhi.
    + rewrite sqrt_square by lra. apply Rle_refl.
Qed.






Close Scope R_scope.

(** ** Matrices written entry by entry *)

Lemma alter_const_insert {A} (f : A -> A) (w : A) (i : nat) (l : list A) :
  (forall v, f v = w) -> alter f i l = <[i := w]> l.
Proof.
  intros Hf. revert i. induction l as [|x l IH]; intros [|i]; simpl; auto.
  - rewrite Hf. reflexivity.
  - f_equal. apply IH.
Qed.

(** Writing the three entries of column [c] is replacing the column. *)
Lemma mset_column {D : Type} (m : list (D * D * D)) (c : nat) (x y z : D) :
  mset (mset (mset m 0 c x) 1 c y) 2 c z = <[c := (x, y, z)]> m.
Proof.
  unfold mset. rewrite !list_alter_alter_eq.
  apply alter_const_insert. intros [[a b] d]. reflexivity.
Qed.

Lemma vget_eta (v : Vector3) : (vget 0 v, vget 1 v, vget 2 v) = v.
Proof. destruct v as [[a b] c]. reflexivity. Qed.

Lemma fold_left_ext {St A} (f g : St -> A -> St) (l : list A) (st : St) :
  (forall s x, f s x = g s x) -> fold_left f l st = fold_left g l st.
Proof.
  intros H. revert st. induction l as [|x l IH]; intros st; simpl; [reflexivity|].
  rewrite H. apply IH.
Qed.

(** A loop nest is one loop over the pairs it visits. *)
Lemma fold_left_nested {St A B} (h : A -> St -> B -> St) (g : A -> list B)
    (l : list A) (st : St) :
  fold_left (fun st i => fold_left (h i) (g i) st) l st
  = fold_left (fun st p => h (fst p) st (snd p))
      (flat_map (fun i => map (pair i) (g i)) l) st.
Proof.
  revert st. induction l as [|i l IH]; intros st; simpl; [reflexivity|].
  rewrite fold_left_app, <- IH. f_equal.
  generalize (g i) st. clear. intros js.
  induction js as [|j js IH]; intros st; simpl; [reflexivity|]. apply IH.
Qed.

Lemma map_flat_map {A B C} (f : B -> C) (g : A -> list B) (l : list A) :
  map f (flat_map g l) = flat_map (fun x => map f (g x)) l.
Proof.
  induction l as [|x l IH]; simpl; [reflexivity|].
  rewrite map_app, IH. reflexivity.
Qed.

(** ** The baselines *)

Lemma length_rows {B} (N : nat) (F : nat -> list B) (i : nat) :
  (forall k, length (F k) = N - k) ->
  length (flat_map F (seq 0 i)) = row_start N i.
Proof.
  intros HF. induction i as [|i IH]; [reflexivity|].
  rewrite seq_S, flat_map_app, length_app, IH. simpl.
  rewrite app_nil_r, HF. reflexivity.
Qed.

Lemma row_start_closed (N i : nat) :
  i <= N -> 2 * row_start N i = i * (2 * N + 1 - i).
Proof.
  induction i as [|i IH]; intros Hi; [reflexivity|].
  simpl row_start. specialize (IH ltac:(lia)). nia.
Qed.

Lemma row_start_total (N : nat) : row_start N N = (N + 1) * N / 2.
Proof.
  pose proof (row_start_closed N N (le_n N)) as H.
  replace (2 * N + 1 - N) with (N + 1) in H by lia.
  apply Nat.div_unique_exact; lia.
Qed.

Lemma lookup_rows {B} (N : nat) (F : nat -> list B) (i m : nat) :
  (forall k, length (F k) = N - k) ->
  i < N -> m < N - i ->
  flat_map F (seq 0 N) !! (row_start N i + m) = F i !! m.
Proof.
  intros HF Hi Hm.
  assert (Hseq : seq 0 N = seq 0 i ++ i :: seq (S i) (N - S i)).
  { change (i :: seq (S i) (N - S i)) with (seq (0 + i) (S (N - S i))).
    rewrite <- seq_app. f_equal. lia. }
  rewrite Hseq, flat_map_app. simpl.
  rewrite lookup_app_r by (rewrite (length_rows N) by exact HF; lia).
  rewrite (length_rows N) by exact HF.
  replace (row_start N i + m - row_start N i) with m by lia.
  apply lookup_app_l. rewrite HF. exact Hm.
Qed.

Lemma position_lookup {A : Type} (dflt : A) (antPos : list A) (i : nat) (p : A) :
  antPos !! i = Some p -> position dflt antPos i = p.
Proof. intros H. unfold position. rewrite H. reflexivity. Qed.

(** The index of the pair [(i, j)] in closed form. *)
Lemma baseline_index_closed (N i j : nat) :
  i <= N -> 2 * baseline_index N i j = i * (2 * N + 1 - i) + 2 * (j - i).
Proof.
  intros Hi. unfold baseline_index.
  pose proof (row_start_closed N i Hi). lia.
Qed.

Lemma baseline_index_closed_witness :
  2 * baseline_index 3 1 2 = 1 * (2 * 3 + 1 - 1) + 2 * (2 - 1).
Proof. apply (baseline_index_closed 3 1 2). lia. Defined.

(** The [int] product [(nAnt+1)*nAnt] of the source fits up to 46340
    antennas (about 10^9 baselines), and no further. *)
Lemma zenithUVWs_int_range (nAnt : nat) :
  ((Z.of_nat nAnt + 1) * Z.of_nat nAnt <= INT_MAX)%Z
  <-> (Z.of_nat nAnt <= 46340)%Z.
Proof.
  unfold INT_MAX.
  pose proof (Zle_0_nat nAnt) as H0. split; intros H.
  - destruct (Z_le_gt_dec (Z.of_nat nAnt) 46340) as [Hle|Hgt]; [exact Hle|].
    exfalso. nia.
  - nia.
Qed.

Section ZenithUVWsProperties.

Variable double : Type.
Variable minus : double -> double -> double.
Variable unwritten : double.

Lemma zenithUVWs_body_eq (antPos uvw : list (double * double * double))
    (i c j : nat) :
  zenithUVWs_body minus unwritten antPos i (uvw, c) j
  = (<[c := vsub minus (position (unwritten, unwritten, unwritten) antPos i)
                       (position (unwritten, unwritten, unwritten) antPos j)]> uvw,
     S c).
Proof.
  unfold zenithUVWs_body. rewrite mset_column. reflexivity.
Qed.

(** Within the range of [int], the loop nest is the enumeration of the
    pairs. *)
Lemma zenithUVWs_eq (antPos : list (double * double * double)) :
  (Z.of_nat (length antPos) <= 46340)%Z ->
  zenithUVWs minus unwritten antPos
  = Ok (spec_baselines minus (unwritten, unwritten, unwritten) antPos).
Proof.
  intros Hfit. apply zenithUVWs_int_range in Hfit.
  unfold zenithUVWs, spec_baselines. cbv zeta.
  destruct (Z.leb_spec ((Z.of_nat (length antPos) + 1) * Z.of_nat (length antPos))
              INT_MAX) as [_|Hgt]; [|lia].
  f_equal.
  set (N := length antPos).
  set (f := fun p : nat * nat =>
              vsub minus (position (unwritten, unwritten, unwritten) antPos (fst p))
                         (position (unwritten, unwritten, unwritten) antPos (snd p))).
  rewrite (fold_left_nested (zenithUVWs_body minus unwritten antPos)
             (fun i => seq i (N - i))).
  rewrite (fold_left_ext _ (fun '(v, c) p => (<[c := f p]> v, S c)))
    by (intros [v c] [i j]; apply zenithUVWs_body_eq).
  rewrite (write_all f).
  - cbn [fst]. rewrite map_flat_map.
    apply flat_map_ext. intros i. rewrite map_map. reflexivity.
  - rewrite length_replicate, <- row_start_total.
    apply (length_rows N). intros k. rewrite length_map, length_seq. reflexivity.
Qed.

(** Beyond it the product overflows. *)
Lemma zenithUVWs_overflow (antPos : list (double * double * double)) :
  (46340 < Z.of_nat (length antPos))%Z ->
  zenithUVWs minus unwritten antPos = Unspecified.
Proof.
  intros Hbig. unfold zenithUVWs. cbv zeta.
  destruct (Z.leb_spec ((Z.of_nat (length antPos) + 1) * Z.of_nat (length antPos))
              INT_MAX) as [Hle|_]; [|reflexivity].
  apply zenithUVWs_int_range in Hle. lia.
Qed.

Lemma spec_baselines_lookup (dflt : double * double * double)
    (antPos : list (double * double * double)) (i j : nat) :
  i <= j < length antPos ->
  spec_baselines minus dflt antPos !! baseline_index (length antPos) i j
  = Some (vsub minus (position dflt antPos i) (position dflt antPos j)).
Proof.
  intros Hij. unfold spec_baselines, baseline_index. cbv zeta.
  set (N := length antPos) in *.
  rewrite (lookup_rows N
             (fun i => map (fun j => vsub minus (position dflt antPos i)
                                                (position dflt antPos j))
                           (seq i (N - i))));
    [| intros k; rewrite length_map, length_seq; reflexivity | lia | lia].
  rewrite lookup_map, lookup_seq_lt by lia. simpl.
  replace (i + (j - i)) with j by lia. reflexivity.
Qed.

(** C2 (as the code has it).  The numbers are [double]s with their own
    subtraction [minus], whatever that arithmetic is.  For [N] antenna
    positions, [N] up to 46340 so that [(N+1)*N] fits an [int],
    [zenithUVWs] returns the [N(N+1)/2] baselines of the pairs [(i, j)],
    [i <= j], in the order of the loop nest: [i] ascending, and [j]
    ascending from [i] within each [i].  The baseline of [(i, j)] is
    [position(i) - position(j)] axis by axis, as [minus] computes it; so
    the baseline of [(i, i)] is the zero vector when each coordinate [x] of
    the position has [x - x = 0], as every finite [double] has; no position
    gives no baseline. *)
Theorem zenithUVWs_baselines (antPos : list (double * double * double)) :
  let N := length antPos in
  (Z.of_nat N <= 46340)%Z ->
  exists uvw,
    zenithUVWs minus unwritten antPos = Ok uvw /\
    uvw = spec_baselines minus (unwritten, unwritten, unwritten) antPos /\
    length uvw = N * (N + 1) / 2 /\
    (forall i j p q, i <= j -> antPos !! i = Some p -> antPos !! j = Some q ->
       uvw !! baseline_index N i j = Some (vsub minus p q)) /\
    (forall i p zero, antPos !! i = Some p ->
       minus (vget 0 p) (vget 0 p) = zero ->
       minus (vget 1 p) (vget 1 p) = zero ->
       minus (vget 2 p) (vget 2 p) = zero ->
       uvw !! baseline_index N i i = Some (zero, zero, zero)) /\
    (N = 0 -> uvw = []).
Proof.
  intros N Hfit.
  exists (spec_baselines minus (unwritten, unwritten, unwritten) antPos).
  assert (Hlk : forall i j p q, i <= j -> antPos !! i = Some p -> antPos !! j = Some q ->
            spec_baselines minus (unwritten, unwritten, unwritten) antPos
              !! baseline_index N i j = Some (vsub minus p q)).
  { intros i j p q Hij Hp Hq.
    pose proof (lookup_lt_Some _ _ _ Hq) as Hj.
    unfold N. rewrite spec_baselines_lookup by lia.
    rewrite (position_lookup _ _ _ _ Hp), (position_lookup _ _ _ _ Hq). reflexivity. }
  split; [apply zenithUVWs_eq, Hfit|].
  split; [reflexivity|]. split; [|split; [exact Hlk|split]].
  - unfold spec_baselines. cbv zeta. fold N.
    rewrite (length_rows N)
      by (intros k; rewrite length_map, length_seq; reflexivity).
    rewrite row_start_total. f_equal. lia.
  - intros i p zero Hp H0 H1 H2. rewrite (Hlk i i p p (le_n i) Hp Hp).
    unfold vsub. rewrite H0, H1, H2. reflexivity.
  - intros HN. unfold spec_baselines. cbv zeta. fold N. rewrite HN. reflexivity.
Qed.

End ZenithUVWsProperties.

Lemma zenithUVWs_baselines_witness :
  exists uvw,
    zenithUVWs Rminus 0%R [(0, 0, 0); (10, 0, 0)]%R = Ok uvw /\
    uvw !! baseline_index 2 0 1 = Some (vsub Rminus (0, 0, 0)%R (10, 0, 0)%R) /\
    uvw !! baseline_index 2 1 1 = Some (0, 0, 0)%R.
Proof.
  destruct (zenithUVWs_baselines R Rminus 0%R [(0, 0, 0); (10, 0, 0)]%R)
    as (uvw & Hrun & _ & _ & Hpair & Hzero & _); [simpl; lia|].
  exists uvw. split; [exact Hrun|]. split.
  - apply (Hpair 0 1 (0, 0, 0)%R (10, 0, 0)%R); [lia | reflexivity | reflexivity].
  - apply (Hzero 1 (10, 0, 0)%R 0%R); [reflexivity | | | ]; simpl; lra.
Defined.

(** C2 (as the specification has it) fails at both ends, here in binary64.
    With 46341 positions the [int] product [(N+1)*N] overflows and the call
    has no defined result; and the baseline of an antenna with itself is
    not the zero vector when a coordinate is infinite: the difference is
    NaN. *)
Lemma zenithUVWs_limits :
  zenithUVWs PrimFloat.sub 0%float (replicate (Z.to_nat 46341) (0, 0, 0)%float)
  = Unspecified /\
  zenithUVWs PrimFloat.sub 0%float [(infinity, 0, 0)%float]
  = Ok [(nan, 0, 0)%float].
Proof.
  split.
  - apply zenithUVWs_overflow. rewrite length_replicate, Z2Nat.id; lia.
  - vm_compute. reflexivity.
Qed.

(** The end-to-end example of the specification, in binary64: two antennas
    10 metres apart along the first axis give the three baselines of
    [(0,0)], [(0,1)] and [(1,1)]. *)
Example zenithUVWs_two_antennas :
  zenithUVWs PrimFloat.sub 0%float [(0, 0, 0); (10, 0, 0)]%float
  = Ok [(0, 0, 0); (-10, 0, 0); (0, 0, 0)]%float.
Proof. vm_compute. reflexivity. Qed.

(** ** The geocentric positions *)

Open Scope R_scope.

(** casacore's rotation matrices, applied to a vector. *)
Lemma Rot3D_latitude_axis (t : R) (v : Vector3) :
  product_mv (Rot3D 1 t) v = rotate_latitude_axis t v.
Proof.
  destruct v as [[x y] z].
  unfold product_mv, rotate_latitude_axis, Rot3D, mget, mset, new_Matrix. simpl.
  repeat (f_equal; try ring).
Qed.

Lemma Rot3D_pole_axis (t : R) (v : Vector3) :
  product_mv (Rot3D 2 t) v = rotate_pole_axis t v.
Proof.
  destruct v as [[x y] z].
  unfold product_mv, rotate_pole_axis, Rot3D, mget, mset, new_Matrix. simpl.
  repeat (f_equal; try ring).
Qed.

(** The rotations keep the length of a vector. *)
Lemma getLength_rotate_latitude_axis (t : R) (v : Vector3) :
  getLength (rotate_latitude_axis t v) = getLength v.
Proof.
  destruct v as [[x y] z]. unfold getLength, rotate_latitude_axis. simpl.
  f_equal. pose proof (sin2_cos2 t) as H. unfold Rsqr in H.
  transitivity ((sin t * sin t + cos t * cos t) * (x * x + z * z) + y * y);
    [ring | rewrite H; ring].
Qed.

Lemma getLength_rotate_pole_axis (t : R) (v : Vector3) :
  getLength (rotate_pole_axis t v) = getLength v.
Proof.
  destruct v as [[x y] z]. unfold getLength, rotate_pole_axis. simpl.
  f_equal. pose proof (sin2_cos2 t) as H. unfold Rsqr in H.
  transitivity ((sin t * sin t + cos t * cos t) * (x * x + y * y) + z * z);
    [ring | rewrite H; ring].
Qed.

Close Scope R_scope.

(** The loop [for pos: a[pos] = g(pos)] over the positions [p, p+n). *)
Lemma fill_positions {B : Type} (g : nat -> B) (n : nat) (a : list B) (p : nat) :
  p + n <= length a ->
  fold_left (fun a pos => <[pos := g pos]> a) (seq p n) a
  = take p a ++ map g (seq p n) ++ drop (p + n) a.
Proof.
  revert a p. induction n as [|n IH]; intros a p Hlen; simpl.
  - rewrite Nat.add_0_r, take_drop. reflexivity.
  - rewrite IH by (rewrite length_insert; lia).
    rewrite (take_S_r _ p (g p)) by (apply list_lookup_insert_eq; lia).
    rewrite take_insert_ge by lia.
    rewrite drop_insert_lt by lia.
    rewrite <- app_assoc. simpl.
    rewrite !Nat.add_succ_r. reflexivity.
Qed.

Section ItrfAntsProperties.

Variable Angles : Type.
Variable getAngle : Vector3 -> Angles.
Variable wgs2itrf : R -> Angles -> Vector3.

Lemma itrfAnts_body_eq (antPos itrf : Matrix) (longitude latitude altitude : R) (i : nat) :
  itrfAnts_body Angles getAngle wgs2itrf antPos
    (Rot3D 1 (- radians latitude)) (Rot3D 2 (radians longitude))
    (seaLevel latitude) altitude itrf i
  = <[i := spec_toGeocentric Angles getAngle wgs2itrf
             longitude latitude altitude (position zero3 antPos i)]> itrf.
Proof.
  unfold itrfAnts_body. cbv zeta. rewrite mset_column, vget_eta.
  rewrite Rot3D_latitude_axis, Rot3D_pole_axis.
  unfold spec_toGeocentric. cbv zeta.
  f_equal.
Qed.

Lemma itrfAnts_eq_map (antPos : Matrix) (longitude latitude altitude : R) :
  itrfAnts Angles getAngle wgs2itrf antPos longitude latitude altitude
  = map (spec_toGeocentric Angles getAngle wgs2itrf longitude latitude altitude) antPos.
Proof.
  unfold itrfAnts. cbv zeta.
  rewrite (fold_left_ext _
             (fun a pos =>
                <[pos := spec_toGeocentric Angles getAngle wgs2itrf
                           longitude latitude altitude (position zero3 antPos pos)]> a))
    by (intros a pos; apply itrfAnts_body_eq).
  rewrite (fill_positions
             (fun pos => spec_toGeocentric Angles getAngle wgs2itrf
                           longitude latitude altitude (position zero3 antPos pos)))
    by (unfold new_Matrix; rewrite length_replicate; lia).
  simpl. rewrite drop_ge by (unfold new_Matrix; rewrite length_replicate; lia).
  rewrite app_nil_r. apply (map_lookup_seq _ zero3).
Qed.

(** C3. [itrfAnts] gives one position per antenna offset, in the order of
    the offsets; each is obtained from its offset as the specification
    says: the sea-level radius at the reference latitude plus the altitude
    is added to the Up component, the vector is turned about the latitude
    axis by minus the latitude and then about the pole axis by the
    longitude, and the same sea-level radius is taken off its length to
    give the height handed, with the angles, to the WGS84-to-ITRF
    conversion. *)
Theorem itrfAnts_per_antenna (antPos : Matrix) (longitude latitude altitude : R) :
  itrfAnts Angles getAngle wgs2itrf antPos longitude latitude altitude
    = map (spec_toGeocentric Angles getAngle wgs2itrf longitude latitude altitude)
        antPos /\
  length (itrfAnts Angles getAngle wgs2itrf antPos longitude latitude altitude)
    = length antPos /\
  (forall i offset, antPos !! i = Some offset ->
     itrfAnts Angles getAngle wgs2itrf antPos longitude latitude altitude !! i
     = Some (spec_toGeocentric Angles getAngle wgs2itrf
               longitude latitude altitude offset)).
Proof.
  rewrite itrfAnts_eq_map. split; [reflexivity|]. split.
  - apply length_map.
  - intros i offset Hi. rewrite lookup_map, Hi. reflexivity.
Qed.

(** The reference point itself: an antenna with no offset, for an array at
    or above sea level, is handed to the conversion with the altitude of
    the array as its height, in the direction of the reference longitude
    and latitude. *)
Lemma spec_toGeocentric_reference (longitude latitude altitude : R) :
  (0 <= altitude)%R ->
  spec_toGeocentric Angles getAngle wgs2itrf longitude latitude altitude zero3
  = wgs2itrf altitude
      (getAngle
         ((seaLevel latitude + altitude) * cos (radians latitude) * cos (radians longitude),
          (seaLevel latitude + altitude) * cos (radians latitude) * sin (radians longitude),
          (seaLevel latitude + altitude) * sin (radians latitude))%R).
Proof.
  intros Halt.
  pose proof (hypot_ellipse_bounds (radians latitude)) as [Hlo _].
  fold (seaLevel latitude) in Hlo. pose proof axes_ordered as [Hb _].
  unfold spec_toGeocentric. cbv zeta.
  rewrite getLength_rotate_pole_axis, getLength_rotate_latitude_axis.
  unfold zero3, rotate_pole_axis, rotate_latitude_axis, getLength. cbn [vget fst snd].
  rewrite cos_neg, sin_neg.
  set (r := (seaLevel latitude + altitude)%R).
  replace ((0 + r) * (0 + r) + 0 * 0 + 0 * 0)%R with (r * r)%R by ring.
  rewrite sqrt_square by (unfold r; lra).
  f_equal; [unfold r; ring|]. f_equal. f_equal; [f_equal|]; ring.
Qed.

(** Over the reals: antennas without offset all get the position of the
    reference point, at the altitude of the array.  (In double precision
    the height is [(seaLev + altitude) - seaLev], the altitude up to
    rounding.) *)
Theorem itrfAnts_reference (antPos : Matrix) (longitude latitude altitude : R) :
  (0 <= altitude)%R ->
  Forall (fun offset => offset = zero3) antPos ->
  itrfAnts Angles getAngle wgs2itrf antPos longitude latitude altitude
  = replicate (length antPos)
      (wgs2itrf altitude
         (getAngle
            ((seaLevel latitude + altitude) * cos (radians latitude) * cos (radians longitude),
             (seaLevel latitude + altitude) * cos (radians latitude) * sin (radians longitude),
             (seaLevel latitude + altitude) * sin (radians latitude))%R)).
Proof.
  intros Halt Hzero. rewrite itrfAnts_eq_map.
  induction Hzero as [|offset antPos -> _ IH]; simpl; [reflexivity|].
  rewrite IH, spec_toGeocentric_reference by exact Halt. reflexivity.
Qed.

End ItrfAntsProperties.

Lemma itrfAnts_per_antenna_witness :
  itrfAnts unit (fun _ => tt) (fun h _ => (h, 0, 0)%R)
    [(0, 0, 0); (10, 0, 0)]%R 0 0 0 !! 1
  = Some (spec_toGeocentric unit (fun _ => tt) (fun h _ => (h, 0, 0)%R)
            0 0 0 (10, 0, 0)%R).
Proof.
  apply (proj2 (proj2 (itrfAnts_per_antenna unit (fun _ => tt) (fun h _ => (h, 0, 0)%R)
                         [(0, 0, 0); (10, 0, 0)]%R 0 0 0)) 1 (10, 0, 0)%R).
  reflexivity.
Defined.

Lemma itrfAnts_reference_witness :
  itrfAnts unit (fun _ => tt) (fun h _ => (h, 0, 0)%R)
    [(0, 0, 0); (0, 0, 0)]%R 0 0 0
  = replicate 2 (0, 0, 0)%R.
Proof.
  apply (itrfAnts_reference unit (fun _ => tt) (fun h _ => (h, 0, 0)%R)
           [(0, 0, 0); (0, 0, 0)]%R 0 0 0).
  - apply Rle_refl.
  - repeat constructor.
Defined.

(** ** The timestamp parser *)

Open Scope char_scope.

(** What being a decimal digit excludes. *)
Lemma isdigit_facts (c : ascii) :
  isdigit c = true ->
  isspace c = false /\
  Ascii.eqb c "-" = false /\ Ascii.eqb c "+" = false /\ Ascii.eqb c "." = false /\
  Ascii.eqb "i" (tolower c) = false /\ Ascii.eqb "n" (tolower c) = false /\
  Ascii.eqb "x" (tolower c) = false.
Proof.
  destruct c as [[] [] [] [] [] [] [] []]; vm_compute; intros H;
    first [discriminate H | repeat split].
Qed.

Definition no_digit_ahead (l : list ascii) : Prop :=
  match l with
  | c :: _ => isdigit c = false
  | [] => True
  end.

Lemma span_digits (ds rest : list ascii) :
  forallb isdigit ds = true -> no_digit_ahead rest ->
  span isdigit (ds ++ rest) = (ds, rest).
Proof.
  intros Hds Hrest. induction ds as [|d ds IH]; simpl in *.
  - destruct rest as [|c rest]; simpl in *; [reflexivity|]. rewrite Hrest. reflexivity.
  - apply andb_prop in Hds as [Hd Hds]. rewrite Hd, (IH Hds). reflexivity.
Qed.

Lemma scan_d_digits (d : ascii) (ds rest : list ascii) :
  forallb isdigit (d :: ds) = true -> no_digit_ahead rest ->
  scan_d ((d :: ds) ++ rest) = Some (number_of 10 digit_value (d :: ds), rest).
Proof.
  intros Hds Hrest.
  pose proof Hds as Hd. simpl in Hd. apply andb_prop in Hd as [Hd _].
  destruct (isdigit_facts d Hd) as (Hsp & Hminus & Hplus & _).
  unfold scan_d.
  replace (skip_space ((d :: ds) ++ rest)) with ((d :: ds) ++ rest)
    by (simpl; rewrite Hsp; reflexivity).
  replace (scan_sign ((d :: ds) ++ rest)) with (false, (d :: ds) ++ rest)
    by (simpl; rewrite Hminus, Hplus; reflexivity).
  rewrite (span_digits _ _ Hds Hrest). reflexivity.
Qed.

Lemma scan_d_two (a b : ascii) (rest : list ascii) :
  isdigit a = true -> isdigit b = true -> no_digit_ahead rest ->
  scan_d (a :: b :: rest) = Some (number_of 10 digit_value [a; b], rest).
Proof.
  intros Ha Hb Hrest. apply (scan_d_digits a [b] rest); [|exact Hrest].
  simpl. rewrite Ha, Hb. reflexivity.
Qed.

Lemma scan_d_four (a b c d : ascii) (rest : list ascii) :
  isdigit a = true -> isdigit b = true -> isdigit c = true -> isdigit d = true ->
  no_digit_ahead rest ->
  scan_d (a :: b :: c :: d :: rest)
  = Some (number_of 10 digit_value [a; b; c; d], rest).
Proof.
  intros Ha Hb Hc Hd Hrest. apply (scan_d_digits a [b; c; d] rest); [|exact Hrest].
  simpl. rewrite Ha, Hb, Hc, Hd. reflexivity.
Qed.

Lemma scan_ordinary (c : ascii) (fmt : list directive) (rest : list ascii) :
  scan (ordinary c :: fmt) (c :: rest) = scan fmt rest.
Proof. simpl. rewrite Ascii.eqb_refl. reflexivity. Qed.

Lemma scan_conv_d (fmt : list directive) (input rest : list ascii) (z : Z) :
  scan_d input = Some (z, rest) ->
  scan (conv_d :: fmt) input = arg_int z :: scan fmt rest.
Proof. intros H. simpl. rewrite H. reflexivity. Qed.

(** A field of two digits, a point and digits up to the end of the input
    converts as a decimal number. *)
Lemma scan_lf_seconds (a b c : ascii) (fp : list ascii) :
  isdigit a = true -> isdigit b = true -> forallb isdigit (c :: fp) = true ->
  exists q, scan_lf (a :: b :: "." :: c :: fp) = Some (lf_num q, []).
Proof.
  intros Ha Hb Hfp.
  destruct (isdigit_facts a Ha) as (Hsp & Hminus & Hplus & _ & Hi & Hn & _).
  destruct (isdigit_facts b Hb) as (_ & _ & _ & _ & _ & _ & Hx).
  unfold scan_lf.
  replace (skip_space (a :: b :: "." :: c :: fp)) with (a :: b :: "." :: c :: fp)
    by (simpl; rewrite Hsp; reflexivity).
  replace (scan_sign (a :: b :: "." :: c :: fp)) with (false, a :: b :: "." :: c :: fp)
    by (simpl; rewrite Hminus, Hplus; reflexivity).
  cbn [list_ascii_of_string match_word]. rewrite Hi, Hn, Hx.
  replace (if Ascii.eqb "0" (tolower a) then None else None)
    with (@None (list ascii)) by (destruct (Ascii.eqb "0" (tolower a)); reflexivity).
  unfold scan_number, scan_mantissa.
  replace (span isdigit (a :: b :: "." :: c :: fp)) with ([a; b], "." :: c :: fp).
  2: { symmetry. apply (span_digits [a; b] ("." :: c :: fp)).
       - simpl. rewrite Ha, Hb. reflexivity.
       - reflexivity. }
  rewrite Ascii.eqb_refl.
  replace (span isdigit (c :: fp)) with (c :: fp, @nil ascii).
  2: { symmetry. rewrite <- (app_nil_r (c :: fp)) at 1.
       apply (span_digits (c :: fp) []); [exact Hfp | exact I]. }
  cbn [scan_exponent]. eexists. reflexivity.
Qed.

Close Scope char_scope.

Lemma time_format_directives :
  parse_format (list_ascii_of_string time_format)
  = [conv_d; ordinary "-"; conv_d; ordinary "-"; conv_d; ordinary "-";
     conv_d; ordinary ":"; conv_d; ordinary ":"; conv_lf]%char.
Proof. reflexivity. Qed.

Lemma match_pattern_digit (p : list pattern_item) (c : ascii) (l : list ascii) :
  match_pattern (a_digit :: p) (c :: l)
  = if isdigit c then match_pattern p l else None.
Proof. reflexivity. Qed.

Lemma match_pattern_char (a : ascii) (p : list pattern_item) (c : ascii)
    (l : list ascii) :
  match_pattern (the_char a :: p) (c :: l)
  = if Ascii.eqb a c then match_pattern p l else None.
Proof. reflexivity. Qed.

(** One step of reading a string against the pattern of the
    specification: a digit, named [c], or the character the pattern
    gives. *)
Ltac pattern_digit H c Hc :=
  lazymatch type of H with
  | match_pattern (a_digit :: _) ?l = Some _ =>
      destruct l as [|c l]; [discriminate H|];
      rewrite match_pattern_digit in H;
      destruct (isdigit c) eqn:Hc; [|discriminate H]
  end.

Ltac pattern_char H :=
  lazymatch type of H with
  | match_pattern (the_char ?a :: _) ?l = Some _ =>
      let c := fresh "c" in
      let E := fresh "E" in
      destruct l as [|c l]; [discriminate H|];
      rewrite match_pattern_char in H;
      destruct (Ascii.eqb_spec a c) as [E|E]; [subst c|discriminate H]
  end.

(** A string of the specified form is converted in full: six arguments
    are assigned, the last one a decimal number. *)
Lemma sscanf_conforming (time : string) :
  spec_conforms time = true ->
  exists yy MM dd hh mm ss,
    sscanf time time_format
    = (6%Z, [arg_int yy; arg_int MM; arg_int dd; arg_int hh; arg_int mm;
             arg_double (lf_num ss)]).
Proof.
  unfold spec_conforms, sscanf.
  rewrite time_format_directives.
  remember (list_ascii_of_string time) as l eqn:Hl. clear Hl time.
  destruct (match_pattern spec_timestamp_pattern l) as [tail|] eqn:H; [|discriminate].
  unfold spec_timestamp_pattern in H.
  pattern_digit H yr1 Hyr1. pattern_digit H yr2 Hyr2.
  pattern_digit H yr3 Hyr3. pattern_digit H yr4 Hyr4. pattern_char H.
  pattern_digit H mo1 Hmo1. pattern_digit H mo2 Hmo2. pattern_char H.
  pattern_digit H da1 Hda1. pattern_digit H da2 Hda2. pattern_char H.
  pattern_digit H ho1 Hho1. pattern_digit H ho2 Hho2. pattern_char H.
  pattern_digit H mi1 Hmi1. pattern_digit H mi2 Hmi2. pattern_char H.
  pattern_digit H se1 Hse1. pattern_digit H se2 Hse2. pattern_char H.
  cbn [match_pattern] in H. injection H as <-.
  destruct l as [|f1 fp]; [discriminate|]. intros Hfp.
  destruct (scan_lf_seconds se1 se2 f1 fp Hse1 Hse2 Hfp) as [q Hq].
  exists (number_of 10 digit_value [yr1; yr2; yr3; yr4]),
         (number_of 10 digit_value [mo1; mo2]),
         (number_of 10 digit_value [da1; da2]),
         (number_of 10 digit_value [ho1; ho2]),
         (number_of 10 digit_value [mi1; mi2]), q.
  erewrite scan_conv_d
    by (apply scan_d_four; [assumption | assumption | assumption | assumption | reflexivity]).
  rewrite scan_ordinary.
  do 4 (erewrite scan_conv_d
          by (apply scan_d_two; [assumption | assumption | reflexivity]);
        rewrite scan_ordinary).
  cbn [scan]. rewrite Hq. reflexivity.
Qed.

(** Six assigned arguments are five integers and a floating-point value:
    the last branch of [str2MEpoch] is not reached. *)
Lemma sscanf_six (time : string) :
  fst (sscanf time time_format) = 6%Z ->
  exists yy MM dd hh mm ss,
    snd (sscanf time time_format)
    = [arg_int yy; arg_int MM; arg_int dd; arg_int hh; arg_int mm; arg_double ss].
Proof.
  unfold sscanf. rewrite time_format_directives.
  generalize (list_ascii_of_string time) as input. intros input.
  cbn [fst snd].
  cbn [scan].
  repeat
    match goal with
    | |- context [match scan_d ?x with _ => _ end] =>
        destruct (scan_d x) as [[? ?]|]
    | |- context [match scan_lf ?x with _ => _ end] =>
        destruct (scan_lf x) as [[? ?]|]
    | |- context [match ?l with [] => [] | _ :: _ => _ end] =>
        destruct l as [|? ?]
    | |- context [if Ascii.eqb ?a ?b then _ else _] =>
        destruct (Ascii.eqb a b)
    end;
    try (destruct (skip_space input); unfold EOF; simpl; intros H; discriminate H).
  intros _. eauto 10.
Qed.

Open Scope string_scope.

Section Str2MEpochProperties.

Variables double Time_t MVTime_t MVEpoch_t : Type.
Variable Time : Z -> Z -> Z -> Z -> Z -> lf -> result Time_t.
Variable Time_plus : Time_t -> double -> Time_t.
Variable MVTime : Time_t -> MVTime_t.
Variable MVEpoch : MVTime_t -> MVEpoch_t.

(** What [str2MEpoch] returns once [sscanf] has assigned the six fields. *)
Lemma str2MEpoch_fields (time : string) (offset : double) (yy MM dd hh mm : Z)
    (ss : lf) :
  sscanf time time_format
    = (6%Z, [arg_int yy; arg_int MM; arg_int dd; arg_int hh; arg_int mm; arg_double ss]) ->
  str2MEpoch Time Time_plus MVTime MVEpoch time offset
  = result_map (fun t => mkMEpoch (MVEpoch (MVTime (Time_plus t offset))) UTC)
      (Time yy MM dd hh mm ss).
Proof. intros H. unfold str2MEpoch. rewrite H. reflexivity. Qed.

(** C6 (as the code has it). [str2MEpoch] throws its parse error whenever
    [sscanf] assigns fewer than six fields, as on ["not-a-date"]; it goes on
    to build the epoch from the six fields otherwise, which is the case for
    every string of the form YYYY-MM-DD-HH:MM:SS.s of the specification. *)
Theorem str2MEpoch_parse (time : string) (offset : double) :
  (fst (sscanf time time_format) <> 6%Z ->
     str2MEpoch Time Time_plus MVTime MVEpoch time offset
     = Throw (runtime_error invalid_string_msg)) /\
  (fst (sscanf time time_format) = 6%Z ->
     exists yy MM dd hh mm ss,
       str2MEpoch Time Time_plus MVTime MVEpoch time offset
       = result_map (fun t => mkMEpoch (MVEpoch (MVTime (Time_plus t offset))) UTC)
           (Time yy MM dd hh mm ss)) /\
  (spec_conforms time = true ->
     exists yy MM dd hh mm ss,
       fst (sscanf time time_format) = 6%Z /\
       str2MEpoch Time Time_plus MVTime MVEpoch time offset
       = result_map (fun t => mkMEpoch (MVEpoch (MVTime (Time_plus t offset))) UTC)
           (Time yy MM dd hh mm (lf_num ss))) /\
  str2MEpoch Time Time_plus MVTime MVEpoch "not-a-date" offset
  = Throw (runtime_error invalid_string_msg).
Proof.
  split; [|split; [|split]].
  - intros Hn. unfold str2MEpoch.
    destruct (sscanf time time_format) as [n args]. cbn [fst] in Hn.
    destruct (Z.eqb_spec n 6) as [E|E]; [contradiction|reflexivity].
  - intros Hn. destruct (sscanf_six time Hn) as (yy & MM & dd & hh & mm & ss & Hargs).
    exists yy, MM, dd, hh, mm, ss. apply str2MEpoch_fields.
    destruct (sscanf time time_format) as [n args]. simpl in *. congruence.
  - intros Hc. destruct (sscanf_conforming time Hc) as (yy & MM & dd & hh & mm & ss & Hs).
    exists yy, MM, dd, hh, mm, ss. split.
    + rewrite Hs. reflexivity.
    + apply str2MEpoch_fields. exact Hs.
  - reflexivity.
Qed.


End Str2MEpochProperties.

Lemma str2MEpoch_parse_witness :
  exists yy MM dd hh mm ss,
    fst (sscanf "2020-01-01-00:00:00.0" time_format) = 6%Z /\
    str2MEpoch Time_of_day Rplus same_instant same_instant
      "2020-01-01-00:00:00.0" 0%R
    = result_map (fun t => mkMEpoch (same_instant (same_instant (t + 0)%R)) UTC)
        (Time_of_day yy MM dd hh mm (lf_num ss)).
Proof.
  apply (proj1 (proj2 (proj2
           (str2MEpoch_parse R R R R Time_of_day Rplus same_instant same_instant
              "2020-01-01-00:00:00.0" 0%R)))).
  reflexivity.
Defined.

(** C6 (as the specification has it) fails: text after the seconds is a
    deviation from the pattern, and the string is parsed all the same,
    whatever casacore's [Time] makes of the six fields. *)
Lemma str2MEpoch_trailing_text :
  spec_conforms "2020-01-01-00:00:00.0junk" = false /\
  sscanf "2020-01-01-00:00:00.0junk" time_format
    = (6%Z, [arg_int 2020; arg_int 1; arg_int 1; arg_int 0; arg_int 0;
             arg_double (lf_num (0 # 10))]) /\
  (fun Time => str2MEpoch Time Rplus same_instant same_instant
                  "2020-01-01-00:00:00.0junk" 0%R)
  = (fun Time => result_map
                   (fun t => mkMEpoch (same_instant (same_instant (t + 0)%R)) UTC)
                   (Time 2020 1 1 0 0 (lf_num (0 # 10))))%Z.
Proof. repeat split. Qed.



(** Other strings that are not of the form YYYY-MM-DD-HH:MM:SS.s and are
    parsed all the same: shorter fields with a blank before each, and a
    seconds field without a fraction. *)
Example str2MEpoch_lenient :
  spec_conforms " 2020- 1- 1- 0: 0: 0" = false /\
  sscanf " 2020- 1- 1- 0: 0: 0" time_format
    = (6%Z, [arg_int 2020; arg_int 1; arg_int 1; arg_int 0; arg_int 0;
             arg_double (lf_num (0 # 1))]) /\
  spec_conforms "2020-01-01-00:00:00" = false /\
  fst (sscanf "2020-01-01-00:00:00" time_format) = 6%Z.
Proof. repeat split. Qed.

(** The examples of the specification: the well-formed timestamp is
    parsed into its six fields, ["not-a-date"] into none. *)
Example sscanf_examples :
  sscanf "2020-01-01-00:00:00.0" time_format
    = (6%Z, [arg_int 2020; arg_int 1; arg_int 1; arg_int 0; arg_int 0;
             arg_double (lf_num (0 # 10))]) /\
  sscanf "not-a-date" time_format = (0%Z, []).
Proof. split; reflexivity. Qed.

Close Scope string_scope.

(** ** The sub-tables of a measurement set *)

Lemma bind_ok {St A B} (m : M St A) (k : A -> M St B) (s s' : St) (a : A) :
  m s = (Ok a, s') -> bind m k s = k a s'.
Proof. intros H. unfold bind. rewrite H. reflexivity. Qed.

(** Putting a cell into an existing row rewrites that row only. *)
Lemma col_put_alter (column : string) (r : nat) (v : cell) (t : MSTable) :
  r < length t ->
  col_put column r v t = (Ok tt, alter (insert column v) r t).
Proof.
  intros Hr. unfold col_put.
  destruct (lookup_lt_is_Some_2 t r Hr) as [row Hrow]. rewrite Hrow.
  f_equal. apply list_eq. intros i.
  destruct (decide (i = r)) as [->|Hne].
  - rewrite list_lookup_insert_eq by exact Hr.
    rewrite list_lookup_alter_eq, Hrow. reflexivity.
  - rewrite list_lookup_insert_ne by congruence.
    rewrite list_lookup_alter_ne by congruence. reflexivity.
Qed.

Lemma col_put_then {A} (column : string) (r : nat) (v : cell) (k : M MSTable A)
    (t : MSTable) :
  r < length t ->
  bind (col_put column r v) (fun _ => k) t = k (alter (insert column v) r t).
Proof. intros Hr. unfold bind. rewrite col_put_alter by exact Hr. reflexivity. Qed.

(** A loop that rewrites row [i] at step [i] rewrites the rows it visits
    and no other. *)
Lemma for_each_rows (F : nat -> gmap string cell -> gmap string cell)
    (body : nat -> M MSTable unit) (n a : nat) (t : MSTable) :
  (forall i (t' : MSTable), i < length t' -> body i t' = (Ok tt, alter (F i) i t')) ->
  a + n <= length t ->
  for_each (seq a n) body t
  = (Ok tt, imap (fun i row => if decide (a <= i < a + n) then F i row else row) t).
Proof.
  intros Hbody. revert a t. induction n as [|n IH]; intros a t Hlen; simpl.
  - unfold ret. f_equal. apply list_eq. intros i.
    rewrite list_lookup_imap. destruct (t !! i); simpl; [|reflexivity].
    destruct (decide _); [lia|reflexivity].
  - unfold bind at 1. rewrite (Hbody a t) by lia.
    rewrite IH by (rewrite length_alter; lia).
    f_equal. apply list_eq. intros i. rewrite !list_lookup_imap.
    destruct (decide (i = a)) as [->|Hne].
    + rewrite list_lookup_alter_eq. destruct (t !! a); simpl; [|reflexivity].
      repeat destruct (decide _); try lia. reflexivity.
    + rewrite list_lookup_alter_ne by congruence.
      destruct (t !! i); simpl; [|reflexivity].
      repeat destruct (decide _); try lia; reflexivity.
Qed.

Lemma nrow_then {A} (k : nat -> M MSTable A) (t : MSTable) :
  bind nrow k t = k (length t) t.
Proof. reflexivity. Qed.

Lemma addRow_then {A} (n : nat) (k : M MSTable A) (t : MSTable) :
  bind (addRow n) (fun _ => k) t = k (t ++ replicate n ∅).
Proof. reflexivity. Qed.

Lemma alter_last (f : gmap string cell -> gmap string cell) (t : MSTable)
    (row : gmap string cell) :
  alter f (length t) (t ++ [row]) = t ++ [f row].
Proof.
  replace (length t) with (length t + 0) at 1 by lia.
  rewrite alter_app_r. reflexivity.
Qed.

(** Puts into the row that was just added, one after the other. *)
Ltac put_last :=
  repeat (rewrite col_put_then by (rewrite length_app; simpl; lia);
          rewrite alter_last).

(** Puts into row 0 of a table that has one. *)
Ltac put_first :=
  repeat (rewrite col_put_then by (simpl; lia);
          cbn [alter list_alter]).

(** The channel centres, in closed form. *)
Lemma fillSpWindowTab_chanFreq_eq (nFreq : nat) (refFreq chanBW : R) :
  fillSpWindowTab_chanFreq nFreq refFreq chanBW
  = map (fun i => (refFreq + (INR i + 0.5) * chanBW)%R) (seq 0 nFreq).
Proof.
  unfold fillSpWindowTab_chanFreq.
  rewrite (fill_positions (fun i => (refFreq + (INR i + 0.5) * chanBW)%R))
    by (rewrite length_replicate; lia).
  rewrite take_0, drop_ge by (rewrite length_replicate; lia).
  rewrite app_nil_r. reflexivity.
Qed.

Lemma fillSpWindowTab_run (format_double : R -> string) (nFreq : nat)
    (cFreq bw : R) (t : MSTable) :
  fillSpWindowTab format_double nFreq cFreq bw t
  = (Ok (length t), t ++ [spw_row format_double nFreq cFreq bw]).
Proof.
  unfold fillSpWindowTab. rewrite nrow_then, addRow_then.
  cbv zeta. cbn [replicate]. put_last. reflexivity.
Qed.

(** [fillSpWindowTab]: the channels tile the band.  For at least one
    channel, the call adds one row behind the rows of the table and returns
    its index; the row holds [nFreq] channel centres and [nFreq] equal
    widths [bw / nFreq]; channel [i] reaches from
    [cFreq - bw/2 + i * bw/nFreq] to [cFreq - bw/2 + (i+1) * bw/nFreq], so
    the first channel starts at the reference frequency [cFreq - bw/2], each
    channel starts where the one before ends, and the last ends at
    [cFreq + bw/2]; channels [i] and [nFreq - 1 - i] lie symmetric about
    [cFreq]. *)
Theorem fillSpWindowTab_channels (format_double : R -> string) (nFreq : nat)
    (cFreq bw : R) (t : MSTable) :
  0 < nFreq ->
  exists (row : gmap string cell) (chanFreq : list R),
    let chanBW := (bw / INR nFreq)%R in
    let refFreq := (cFreq - bw / 2)%R in
    fillSpWindowTab format_double nFreq cFreq bw t = (Ok (length t), t ++ [row])
    /\ row !! "chanFreq" = Some (ArrayDouble_cell (mkArray [nFreq] chanFreq))
    /\ row !! "chanWidth"
       = Some (ArrayDouble_cell (mkArray [nFreq] (replicate nFreq chanBW)))
    /\ row !! "refFrequency" = Some (Double_cell refFreq)
    /\ row !! "totalBandwidth" = Some (Double_cell bw)
    /\ length chanFreq = nFreq
    /\ (forall i f, chanFreq !! i = Some f ->
          (f - chanBW / 2 = refFreq + INR i * chanBW)%R
          /\ (f + chanBW / 2 = refFreq + INR (S i) * chanBW)%R)
    /\ (refFreq + INR nFreq * chanBW = cFreq + bw / 2)%R
    /\ (forall i f g, chanFreq !! i = Some f ->
          chanFreq !! (nFreq - 1 - i) = Some g -> (f + g = 2 * cFreq)%R).
Proof.
  intros Hn.
  assert (HnR : (0 < INR nFreq)%R) by (apply lt_0_INR; lia).
  exists (spw_row format_double nFreq cFreq bw),
    (fillSpWindowTab_chanFreq nFreq (cFreq - bw / 2) (bw / INR nFreq)).
  cbv zeta.
  assert (Hlook : forall i f,
    fillSpWindowTab_chanFreq nFreq (cFreq - bw / 2) (bw / INR nFreq) !! i = Some f ->
    i < nFreq /\ f = (cFreq - bw / 2 + (INR i + 0.5) * (bw / INR nFreq))%R).
  { intros i f. rewrite fillSpWindowTab_chanFreq_eq, list_lookup_fmap.
    destruct (seq 0 nFreq !! i) as [j|] eqn:Hj; simpl; [|discriminate].
    apply lookup_seq in Hj. destruct Hj as [-> Hi]. simpl.
    intros [= <-]. split; [exact Hi | reflexivity]. }
  split; [apply fillSpWindowTab_run|].
  split; [reflexivity|]. split; [reflexivity|]. split; [reflexivity|].
  split; [reflexivity|].
  split.
  { rewrite fillSpWindowTab_chanFreq_eq, length_map, length_seq. reflexivity. }
  split.
  { intros i f Hf. destruct (Hlook i f Hf) as [_ ->].
    rewrite S_INR. split; lra. }
  split.
  { field. lra. }
  intros i f g Hf Hg.
  assert (Hbw : (INR nFreq * (bw / INR nFreq) = bw)%R) by (field; lra).
  destruct (Hlook i f Hf) as [Hi ->]. destruct (Hlook _ g Hg) as [_ ->].
  replace (nFreq - 1 - i) with (nFreq - S i) by lia.
  rewrite minus_INR by lia. rewrite S_INR.
  set (chanBW := (bw / INR nFreq)%R) in *. lra.
Qed.

Lemma fillSpWindowTab_channels_witness :
  exists (row : gmap string cell) (chanFreq : list R),
    fillSpWindowTab (fun _ => "f"%string) 4 100 8 []
    = (Ok (length ([] : list (gmap string cell))), [] ++ [row])
    /\ row !! "chanFreq" = Some (ArrayDouble_cell (mkArray [4] chanFreq))
    /\ length chanFreq = 4.
Proof.
  destruct (fillSpWindowTab_channels (fun _ => "f"%string) 4 100 8 [])
    as (row & chanFreq & H1 & H2 & _ & _ & _ & H6 & _); [lia|].
  exists row, chanFreq. split; [exact H1|]. split; [exact H2 | exact H6].
Defined.

(** [fillSpWindowTab] appends: it leaves the rows of the table alone and
    returns the index of the row it added, so that two calls in a row
    return consecutive indices and add the two rows in the order of the
    calls. *)
Theorem fillSpWindowTab_twice (format_double : R -> string) (n1 n2 : nat)
    (c1 b1 c2 b2 : R) (t : MSTable) :
  exists row1 row2 : gmap string cell,
    (let* r1 := fillSpWindowTab format_double n1 c1 b1 in
     let* r2 := fillSpWindowTab format_double n2 c2 b2 in
     ret (r1, r2))%cxx t
    = (Ok (length t, S (length t)), t ++ [row1; row2])
    /\ row1 !! "numChan" = Some (Int_cell (Z.of_nat n1))
    /\ row1 !! "totalBandwidth" = Some (Double_cell b1)
    /\ row1 !! "name" = Some (String_cell (format_double c1))
    /\ row2 !! "numChan" = Some (Int_cell (Z.of_nat n2))
    /\ row2 !! "totalBandwidth" = Some (Double_cell b2)
    /\ row2 !! "name" = Some (String_cell (format_double c2)).
Proof.
  exists (spw_row format_double n1 c1 b1), (spw_row format_double n2 c2 b2).
  split.
  - unfold bind at 1. rewrite fillSpWindowTab_run.
    unfold bind at 1. rewrite fillSpWindowTab_run.
    unfold ret. rewrite length_app, <- app_assoc. simpl.
    rewrite Nat.add_1_r. reflexivity.
  - repeat split; reflexivity.
Qed.

Lemma bind_ext {St A B} (m : M St A) (k1 k2 : A -> M St B) (s : St) :
  (forall a s', k1 a s' = k2 a s') -> bind m k1 s = bind m k2 s.
Proof. intros H. unfold bind. destruct (m s) as [[a| |] s']; auto. Qed.

(** *** The observation table *)

Lemma fillObservationTab_run (OBSERVER PROJECT TELESCOPE_NAME : string)
    (startTime finishTime : R) (t : MSTable) :
  fillObservationTab OBSERVER PROJECT TELESCOPE_NAME startTime finishTime t
  = (Ok 0, alter (obs_row OBSERVER PROJECT TELESCOPE_NAME startTime finishTime) 0
             (t ++ [∅])).
Proof.
  unfold fillObservationTab. rewrite addRow_then. cbn [replicate].
  destruct t as [|row0 rest]; simpl app; put_first; reflexivity.
Qed.

(** [updateObservationTab] after [fillObservationTab] leaves the table as
    [fillObservationTab] with the new times would have: the time range is
    replaced, the other cells and the other rows stay. *)
Theorem updateObservationTab_after_fill (OBSERVER PROJECT TELESCOPE_NAME : string)
    (start1 finish1 start2 finish2 : R) (t : MSTable) :
  (fillObservationTab OBSERVER PROJECT TELESCOPE_NAME start1 finish1 ;;;
   updateObservationTab start2 finish2)%cxx t
  = fillObservationTab OBSERVER PROJECT TELESCOPE_NAME start2 finish2 t.
Proof.
  unfold bind at 1. rewrite !fillObservationTab_run.
  unfold updateObservationTab.
  destruct t as [|row0 rest]; simpl app; cbn [alter list_alter]; put_first;
    unfold ret, obs_row;
    rewrite !(insert_insert_ne _ "timeRange") by discriminate;
    rewrite insert_insert_eq; reflexivity.
Qed.

(** [fillObservationTab] writes row 0 whatever the table holds.  On the
    empty table the result is the one row with the four cells; on a table
    that has rows, the cells go over the first of them and the row that was
    added stays without cells. *)
Theorem fillObservationTab_row_0 (OBSERVER PROJECT TELESCOPE_NAME : string)
    (startTime finishTime : R) (row0 : gmap string cell) (rest : MSTable) :
  fillObservationTab OBSERVER PROJECT TELESCOPE_NAME startTime finishTime []
  = (Ok 0, [obs_row OBSERVER PROJECT TELESCOPE_NAME startTime finishTime ∅])
  /\ fillObservationTab OBSERVER PROJECT TELESCOPE_NAME startTime finishTime
       (row0 :: rest)
     = (Ok 0, obs_row OBSERVER PROJECT TELESCOPE_NAME startTime finishTime row0
                :: rest ++ [∅]).
Proof. rewrite !fillObservationTab_run. split; reflexivity. Qed.

(** *** The source table *)

(** The part of [fillSourceTab] behind the choice of the direction. *)
Lemma fillSourceTab_puts {A} (FIELD_NAME : string) (startTime finishTime : R)
    (zenith : MDirection) (k : M MSTable A) (t : MSTable) :
  (addRow 1 ;;;
   col_put "sourceId" 0 (Int_cell 0) ;;;
   col_put "time" 0 (Double_cell ((finishTime + startTime) / 2)) ;;;
   col_put "interval" 0 (Double_cell (finishTime - startTime)) ;;;
   col_put "spectralWindowId" 0 (Int_cell (-1)) ;;;
   col_put "numLines" 0 (Int_cell 0) ;;;
   col_put "name" 0 (String_cell FIELD_NAME) ;;;
   col_put "calibrationGroup" 0 (Int_cell 0) ;;;
   col_put "code" 0 (String_cell EmptyString) ;;;
   col_put "directionMeas" 0 (Direction_cell zenith) ;;;
   col_put "properMotion" 0 (ArrayDouble_cell (mkArray [2] [0; 0]%R)) ;;;
   k)%cxx t
  = k (alter (src_row FIELD_NAME startTime finishTime zenith) 0 (t ++ [∅])).
Proof.
  rewrite addRow_then. cbn [replicate].
  destruct t as [|row0 rest]; simpl app; put_first; reflexivity.
Qed.

Lemma updateSourceTab_run (startTime finishTime : R) (row0 : gmap string cell)
    (rest : MSTable) :
  updateSourceTab startTime finishTime (row0 :: rest)
  = (Ok 0, <["interval" := Double_cell (finishTime - startTime)]>
             (<["time" := Double_cell ((finishTime + startTime) / 2)]> row0)
             :: rest).
Proof. unfold updateSourceTab. put_first. reflexivity. Qed.

Lemma src_row_update (FIELD_NAME : string) (start1 finish1 start2 finish2 : R)
    (zenith : MDirection) (row : gmap string cell) :
  <["interval" := Double_cell (finish2 - start2)]>
    (<["time" := Double_cell ((finish2 + start2) / 2)]>
       (src_row FIELD_NAME start1 finish1 zenith row))
  = src_row FIELD_NAME start2 finish2 zenith row.
Proof.
  unfold src_row.
  rewrite !(insert_insert_ne _ "time") by discriminate.
  rewrite insert_insert_eq.
  rewrite !(insert_insert_ne _ "interval") by discriminate.
  rewrite insert_insert_eq. reflexivity.
Qed.

(** The direction [fillSourceTab], [fillFieldTab] and [addField] work
    with. *)
Lemma fillSourceTab_run (FIELD_NAME : string)
    (setDirectionRef : MDirection_Types -> M MSTable unit)
    (startTime finishTime : R) (dir : option MDirection) (t : MSTable) :
  fillSourceTab FIELD_NAME setDirectionRef startTime finishTime dir t
  = bind match dir with
         | None => bind (setDirectionRef AZEL) (fun _ => ret zenith_AZEL)
         | Some d => ret d
         end
      (fun zenith t1 =>
         (Ok 0, alter (src_row FIELD_NAME startTime finishTime zenith) 0 (t1 ++ [∅])))
      t.
Proof.
  unfold fillSourceTab. apply bind_ext. intros zenith t1.
  exact (fillSourceTab_puts FIELD_NAME startTime finishTime zenith (ret 0) t1).
Qed.

(** [updateSourceTab] after [fillSourceTab] leaves the table as
    [fillSourceTab] with the new times would have, for a given direction as
    for the zenith, and whatever [setDirectionRef] does (when it throws,
    both throw the same). *)
Theorem updateSourceTab_after_fill (FIELD_NAME : string)
    (setDirectionRef : MDirection_Types -> M MSTable unit)
    (start1 finish1 start2 finish2 : R) (dir : option MDirection) (t : MSTable) :
  (fillSourceTab FIELD_NAME setDirectionRef start1 finish1 dir ;;;
   updateSourceTab start2 finish2)%cxx t
  = fillSourceTab FIELD_NAME setDirectionRef start2 finish2 dir t.
Proof.
  unfold bind at 1. rewrite !fillSourceTab_run. unfold bind at 1 3.
  destruct (match dir with
            | None => bind (setDirectionRef AZEL) (fun _ => ret zenith_AZEL)
            | Some d => ret d
            end t) as [[zenith| |] t1]; try reflexivity.
  destruct t1 as [|row0 rest]; simpl app; cbn [alter list_alter];
    rewrite updateSourceTab_run, src_row_update; reflexivity.
Qed.

(** The cell a chain of puts leaves in a column. *)
Ltac row_lookup :=
  repeat (rewrite lookup_insert_ne by discriminate);
  try rewrite lookup_insert_eq; reflexivity.

(** [fillSourceTab] writes [(finishTime + startTime) / 2] as the time and
    [finishTime - startTime] as the interval.  Over the reals these are the
    middle and the length of the observation: half the interval before the
    time is the start, half the interval after it the finish (in double
    precision, up to rounding).  The direction is the one given, or the
    zenith when there is none and [setDirectionRef] returns; the row they
    go to is row 0. *)
Theorem fillSourceTab_time_interval (FIELD_NAME : string)
    (setDirectionRef : MDirection_Types -> M MSTable unit)
    (startTime finishTime : R) (dir : option MDirection) (t t1 : MSTable) :
  match dir with
  | None => setDirectionRef AZEL t = (Ok tt, t1)
  | Some _ => t1 = t
  end ->
  exists (row : gmap string cell) (time interval : R),
    fillSourceTab FIELD_NAME setDirectionRef startTime finishTime dir t
    = (Ok 0, row :: drop 1 (t1 ++ [∅]))
    /\ row !! "time" = Some (Double_cell time)
    /\ row !! "interval" = Some (Double_cell interval)
    /\ time = ((finishTime + startTime) / 2)%R
    /\ interval = (finishTime - startTime)%R
    /\ (time - interval / 2 = startTime)%R
    /\ (time + interval / 2 = finishTime)%R
    /\ row !! "directionMeas" = Some (Direction_cell (default zenith_AZEL dir)).
Proof.
  intros Hdir.
  exists (src_row FIELD_NAME startTime finishTime (default zenith_AZEL dir)
            (default ∅ (head (t1 ++ [∅])))),
    ((finishTime + startTime) / 2)%R, (finishTime - startTime)%R.
  split.
  - rewrite fillSourceTab_run. unfold bind at 1.
    destruct dir as [d|].
    + subst t1. unfold ret. destruct t; reflexivity.
    + unfold bind. rewrite Hdir. unfold ret. destruct t1; reflexivity.
  - unfold src_row. repeat split; try lra; row_lookup.
Qed.

Lemma fillSourceTab_time_interval_witness :
  exists (row : gmap string cell) (time interval : R),
    fillSourceTab "zenith" (fun _ => ret tt) 10 30
      (Some (mkMDirection 0 90 J2000)) []
    = (Ok 0, row :: drop 1 ([] ++ [∅]))
    /\ row !! "time" = Some (Double_cell time)
    /\ row !! "interval" = Some (Double_cell interval)
    /\ time = ((30 + 10) / 2)%R
    /\ interval = (30 - 10)%R
    /\ (time - interval / 2 = 10)%R
    /\ (time + interval / 2 = 30)%R
    /\ row !! "directionMeas"
       = Some (Direction_cell (default zenith_AZEL (Some (mkMDirection 0 90 J2000)))).
Proof.
  apply (fillSourceTab_time_interval "zenith" (fun _ => ret tt) 10 30
           (Some (mkMDirection 0 90 J2000)) [] []).
  reflexivity.
Defined.

(** *** The field table *)

(** [addField] with a direction writes the name and the three directions
    into the row it adds, and the source identifier into row 0.  On the
    empty table these are the same row; on a table that has rows, the first
    of them gets the identifier (again) and the added row has none. *)
Theorem addField_rows (setDirectionRef : MDirection_Types -> M MSTable unit)
    (name : string) (d : MDirection) (row0 : gmap string cell) (rest : MSTable) :
  addField setDirectionRef name (Some d) []
  = (Ok 0, [<["sourceId" := Int_cell 0]> (fld_row name [d] ∅)])
  /\ addField setDirectionRef name (Some d) (row0 :: rest)
     = (Ok 0, <["sourceId" := Int_cell 0]> row0 :: rest ++ [fld_row name [d] ∅])
  /\ fld_row name [d] ∅ !! "name" = Some (String_cell name)
  /\ fld_row name [d] ∅ !! "phaseDirMeasCol" = Some (Directions_cell [d])
  /\ fld_row name [d] ∅ !! "sourceId" = None.
Proof.
  split; [|split; [|repeat split; reflexivity]].
  - unfold addField. rewrite nrow_then. unfold bind at 1. unfold ret at 1.
    rewrite addRow_then. cbn [replicate length app]. put_first. reflexivity.
  - unfold addField. rewrite nrow_then. unfold bind at 1. unfold ret at 1.
    rewrite addRow_then. cbn [replicate].
    put_last.
    rewrite col_put_then by (rewrite length_app; simpl; lia). reflexivity.
Qed.

(** [fillFieldTab] is [addField] with the name [FIELD_NAME] on the empty
    table, for a given direction as for the zenith.  On a table that has
    rows it differs: it writes over row 0 and leaves the row it adds
    without cells. *)
Theorem fillFieldTab_addField (FIELD_NAME : string)
    (setDirectionRef : MDirection_Types -> M MSTable unit)
    (dir : option MDirection) (d : MDirection) (row0 : gmap string cell)
    (rest : MSTable) :
  fillFieldTab FIELD_NAME setDirectionRef dir []
  = addField setDirectionRef FIELD_NAME dir []
  /\ fillFieldTab FIELD_NAME setDirectionRef (Some d) (row0 :: rest)
     = (Ok 0, <["sourceId" := Int_cell 0]> (fld_row FIELD_NAME [d] row0)
                :: rest ++ [∅]).
Proof.
  split; [reflexivity|].
  unfold fillFieldTab. unfold bind at 1. unfold ret at 1.
  rewrite addRow_then. cbn [replicate]. simpl app. put_first. reflexivity.
Qed.

(** *** The feed and antenna tables *)

Lemma fillFeedTab_body_run (antNum : nat) (t : MSTable) :
  antNum < length t ->
  fillFeedTab_body antNum t = (Ok tt, alter (feed_row antNum) antNum t).
Proof.
  intros Hlt. unfold fillFeedTab_body. cbv zeta.
  repeat (rewrite col_put_then by (rewrite ?length_alter; exact Hlt)).
  rewrite col_put_alter by (rewrite ?length_alter; exact Hlt).
  rewrite !list_alter_alter_eq. reflexivity.
Qed.

Lemma fillFeedTab_run (nAnt : nat) (t : MSTable) :
  fillFeedTab nAnt t
  = (Ok nAnt,
     imap (fun i row => if decide (0 <= i < 0 + nAnt) then feed_row i row else row)
       (t ++ replicate nAnt ∅)).
Proof.
  unfold fillFeedTab. rewrite addRow_then. unfold bind.
  rewrite (for_each_rows feed_row).
  - reflexivity.
  - intros i t' Hi. apply fillFeedTab_body_run, Hi.
  - rewrite length_app, length_replicate. lia.
Qed.

(** [fillFeedTab] returns the number of antennas and adds that many rows.
    Afterwards each of the rows [0 .. nAnt-1] is the feed of the antenna
    with its number: two receptors, X and Y, with the identity as response.
    The rows from [nAnt] on are not written; on the empty table there are
    none. *)
Theorem fillFeedTab_rows (nAnt : nat) (t : MSTable) :
  exists t' : MSTable,
    fillFeedTab nAnt t = (Ok nAnt, t')
    /\ length t' = length t + nAnt
    /\ (forall i, i < nAnt ->
          exists row, t' !! i = Some row
            /\ row !! "antennaId" = Some (Int_cell (Z.of_nat i))
            /\ row !! "numReceptors" = Some (Int_cell 2)
            /\ row !! "polarizationType"
               = Some (ArrayString_cell (mkArray [2] ["X"; "Y"]%string))
            /\ row !! "polResponse"
               = Some (ArrayComplex_cell
                         (mkArray [2; 2] [(1, 0); (0, 0); (0, 0); (1, 0)]%R)))
    /\ (forall i, nAnt <= i -> t' !! i = (t ++ replicate nAnt ∅) !! i).
Proof.
  eexists. split; [apply fillFeedTab_run|].
  split; [rewrite length_imap, length_app, length_replicate; reflexivity|].
  split.
  - intros i Hi.
    destruct (lookup_lt_is_Some_2 (t ++ replicate nAnt ∅) i) as [row0 Hrow0].
    { rewrite length_app, length_replicate. lia. }
    exists (feed_row i row0). split.
    + rewrite list_lookup_imap, Hrow0. simpl.
      destruct (decide _); [reflexivity | lia].
    + unfold feed_row. repeat split; row_lookup.
  - intros i Hi. rewrite list_lookup_imap.
    destruct ((t ++ replicate nAnt ∅) !! i); simpl; [|reflexivity].
    destruct (decide _); [lia | reflexivity].
Qed.

Lemma fillFeedTab_rows_witness :
  exists t' : MSTable,
    fillFeedTab 2 [] = (Ok 2, t')
    /\ length t' = 2
    /\ exists row, t' !! 1 = Some row
         /\ row !! "antennaId" = Some (Int_cell 1).
Proof.
  destruct (fillFeedTab_rows 2 []) as (t' & H1 & H2 & H3 & _).
  destruct (H3 1) as (row & Hrow & Hid & _); [lia|].
  exists t'. split; [exact H1|]. split; [exact H2|].
  exists row. split; [exact Hrow | exact Hid].
Defined.

Lemma fillAntTab_body_run (ANT_NAME STATION_NAME ANTENNA_TYPE ANTENNA_MOUNT : string)
    (ANTENNA_DISH_DIAMETER : R) (antNum : nat) (t : MSTable) :
  antNum < length t ->
  fillAntTab_body ANT_NAME STATION_NAME ANTENNA_TYPE ANTENNA_MOUNT
    ANTENNA_DISH_DIAMETER antNum t
  = (Ok tt,
     alter (ant_row (antenna_name ANT_NAME antNum) STATION_NAME ANTENNA_TYPE
              ANTENNA_MOUNT ANTENNA_DISH_DIAMETER) antNum t).
Proof.
  intros Hlt. unfold fillAntTab_body.
  repeat (rewrite col_put_then by (rewrite ?length_alter; exact Hlt)).
  rewrite col_put_alter by (rewrite ?length_alter; exact Hlt).
  rewrite !list_alter_alter_eq. reflexivity.
Qed.

(** [fillAntTab] with one position per row of the table it leaves: it
    returns the number of antennas; row [i] holds column [i] of the
    positions; and each of the rows [0 .. nAnt-1] holds the name with the
    number [i+1], the station, type, mount and diameter of the header and no
    offset. *)
Theorem fillAntTab_rows (ANT_NAME STATION_NAME ANTENNA_TYPE ANTENNA_MOUNT : string)
    (ANTENNA_DISH_DIAMETER : R) (nAnt : nat) (itrfPos : Matrix) (t : MSTable) :
  length itrfPos = length t + nAnt ->
  exists t' : MSTable,
    fillAntTab ANT_NAME STATION_NAME ANTENNA_TYPE ANTENNA_MOUNT
      ANTENNA_DISH_DIAMETER nAnt itrfPos t = (Ok nAnt, t')
    /\ length t' = length t + nAnt
    /\ (forall i v, itrfPos !! i = Some v ->
          exists row, t' !! i = Some row
            /\ row !! "position"
               = Some (ArrayDouble_cell (mkArray [3] [vget 0 v; vget 1 v; vget 2 v]))
            /\ (i < nAnt ->
                  row !! "name" = Some (String_cell (antenna_name ANT_NAME i))
                  /\ row !! "station" = Some (String_cell STATION_NAME)
                  /\ row !! "type" = Some (String_cell ANTENNA_TYPE)
                  /\ row !! "mount" = Some (String_cell ANTENNA_MOUNT)
                  /\ row !! "dishDiameter" = Some (Double_cell ANTENNA_DISH_DIAMETER)
                  /\ row !! "offset"
                     = Some (ArrayDouble_cell (mkArray [3] [0; 0; 0]%R)))).
Proof.
  intros Hlen.
  set (F := fun i => ant_row (antenna_name ANT_NAME i) STATION_NAME ANTENNA_TYPE
                       ANTENNA_MOUNT ANTENNA_DISH_DIAMETER).
  set (t1 := imap (fun i row => if decide (0 <= i < 0 + nAnt) then F i row else row)
               (t ++ replicate nAnt ∅)).
  assert (Hlen1 : length t1 = length t + nAnt).
  { unfold t1. rewrite length_imap, length_app, length_replicate. reflexivity. }
  eexists. split; [|split].
  - unfold fillAntTab. rewrite addRow_then. unfold bind at 1.
    rewrite (for_each_rows F).
    + fold t1. unfold bind, putColumn3. rewrite Hlen1, <- Hlen, Nat.eqb_refl.
      unfold ret. reflexivity.
    + intros i t' Hi. apply fillAntTab_body_run, Hi.
    + rewrite length_app, length_replicate. lia.
  - rewrite length_zip_with. lia.
  - intros i v Hv.
    assert (Hi : i < length t + nAnt).
    { rewrite <- Hlen. apply lookup_lt_is_Some_1. eauto. }
    destruct (lookup_lt_is_Some_2 (t ++ replicate nAnt ∅) i) as [row0 Hrow0].
    { rewrite length_app, length_replicate. lia. }
    eexists. split; [|split].
    + rewrite lookup_zip_with, Hv. simpl. unfold t1.
      rewrite list_lookup_imap, Hrow0. simpl. reflexivity.
    + row_lookup.
    + intros Hlt. destruct (decide _); [|lia].
      unfold F, ant_row. repeat split; row_lookup.
Qed.

Lemma fillAntTab_rows_witness :
  exists t' : MSTable,
    fillAntTab "ANT" "OVRO" "GROUND-BASED" "ALT-AZ" 2 2 [(1, 2, 3); (4, 5, 6)]%R []
    = (Ok 2, t')
    /\ length t' = 2.
Proof.
  destruct (fillAntTab_rows "ANT" "OVRO" "GROUND-BASED" "ALT-AZ" 2 2
              [(1, 2, 3); (4, 5, 6)]%R []) as (t' & H1 & H2 & _); [reflexivity|].
  exists t'. split; [exact H1 | exact H2].
Defined.

(** *** Antenna names *)

Lemma append_inv_head (p a b : string) :
  (p ++ a)%string = (p ++ b)%string -> a = b.
Proof.
  induction p as [|c p IH]; intros H; [exact H|].
  apply IH. change (String c (p ++ a) = String c (p ++ b))%string in H.
  congruence.
Qed.

Lemma length_append (a b : string) :
  String.length (a ++ b) = String.length a + String.length b.
Proof.
  induction a as [|c a IH]; [reflexivity|].
  change (S (String.length (a ++ b)%string) = S (String.length a) + String.length b).
  rewrite IH. reflexivity.
Qed.

(** Reading a padded number back: the fill characters do not count. *)
Lemma uint_of_zero (s : string) :
  option_map Nat.of_uint (NilEmpty.uint_of_string (String "0" s))
  = option_map Nat.of_uint (NilEmpty.uint_of_string s).
Proof.
  change (NilEmpty.uint_of_string (String "0" s))
    with (uint_of_char "0" (NilEmpty.uint_of_string s)).
  destruct (NilEmpty.uint_of_string s); reflexivity.
Qed.

Lemma uint_of_zeros (k : nat) (s : string) :
  option_map Nat.of_uint
    (NilEmpty.uint_of_string (string_of_list_ascii (replicate k "0"%char) ++ s))
  = option_map Nat.of_uint (NilEmpty.uint_of_string s).
Proof.
  induction k as [|k IH]; [reflexivity|].
  change (string_of_list_ascii (replicate (S k) "0"%char) ++ s)%string
    with (String "0" (string_of_list_ascii (replicate k "0"%char) ++ s)).
  rewrite uint_of_zero. exact IH.
Qed.

Lemma setw_setfill_decimal (w n : nat) :
  option_map Nat.of_uint
    (NilEmpty.uint_of_string (setw_setfill w "0" (decimal n))) = Some n.
Proof.
  unfold setw_setfill. rewrite uint_of_zeros. unfold decimal.
  rewrite NilEmpty.usu. simpl. rewrite Unsigned.of_to. reflexivity.
Qed.

(** The antennas of a table have different names: the number in a name is
    the row of the antenna plus one, however many digits it takes. *)
Theorem antenna_name_different (ANT_NAME : string) (i j : nat) :
  i <> j -> antenna_name ANT_NAME i <> antenna_name ANT_NAME j.
Proof.
  intros Hne Heq. apply Hne. unfold antenna_name in Heq.
  apply append_inv_head in Heq.
  pose proof (setw_setfill_decimal 3 (i + 1)) as Hi.
  pose proof (setw_setfill_decimal 3 (j + 1)) as Hj.
  rewrite Heq in Hi. rewrite Hi in Hj. injection Hj as Hj. lia.
Qed.

Lemma antenna_name_different_witness :
  antenna_name "ANT" 0 = "ANT001"%string
  /\ antenna_name "ANT" 10 = "ANT011"%string
  /\ antenna_name "ANT" 0 <> antenna_name "ANT" 10.
Proof.
  split; [reflexivity|]. split; [reflexivity|].
  apply (antenna_name_different "ANT" 0 10). lia.
Defined.

(** Up to 999 antennas the names have one width: the prefix and three
    digits. *)
Theorem antenna_name_width (ANT_NAME : string) (antNum : nat) :
  antNum < 999 ->
  String.length (antenna_name ANT_NAME antNum) = String.length ANT_NAME + 3.
Proof.
  intros Hlt. unfold antenna_name. rewrite length_append. f_equal.
  assert (Hall : forallb
            (fun i => String.length (setw_setfill 3 "0" (decimal (i + 1))) =? 3)
            (seq 0 999) = true) by (vm_compute; reflexivity).
  rewrite forallb_forall in Hall.
  apply Nat.eqb_eq, Hall, in_seq. lia.
Qed.

Lemma antenna_name_width_witness :
  String.length (antenna_name "ANT" 255) = String.length "ANT" + 3.
Proof. apply (antenna_name_width "ANT" 255). lia. Defined.

(** *** The pointing table *)

Lemma fillPointingTab_body_run (zenith : list MDirection) (time : R) (antNum : nat)
    (t : MSTable) :
  antNum < length t ->
  fillPointingTab_body zenith time antNum t
  = (Ok tt, alter (pnt_row zenith time antNum) antNum t).
Proof.
  intros Hlt. unfold fillPointingTab_body.
  repeat (rewrite col_put_then by (rewrite ?length_alter; exact Hlt)).
  rewrite col_put_alter by (rewrite ?length_alter; exact Hlt).
  rewrite !list_alter_alter_eq. reflexivity.
Qed.

(** [fillPointingTab] returns the number of antennas and adds that many
    rows.  Afterwards each of the rows [0 .. nAnt-1] is the pointing of the
    antenna with its number: direction and target are the direction given,
    or the zenith when there is none and [setDirectionRef] returns; the
    time origin is the time given; the antenna does not track. *)
Theorem fillPointingTab_rows
    (setDirectionRef : MDirection_Types -> M MSTable unit)
    (nAnt : nat) (time : R) (dir : option MDirection) (t t1 : MSTable) :
  match dir with
  | None => setDirectionRef AZEL t = (Ok tt, t1)
  | Some _ => t1 = t
  end ->
  exists t' : MSTable,
    fillPointingTab setDirectionRef nAnt time dir t = (Ok nAnt, t')
    /\ length t' = length t1 + nAnt
    /\ (forall i, i < nAnt ->
          exists row, t' !! i = Some row
            /\ row !! "antennaId" = Some (Int_cell (Z.of_nat i))
            /\ row !! "directionMeasCol"
               = Some (Directions_cell [default zenith_AZEL dir])
            /\ row !! "targetMeasCol"
               = Some (Directions_cell [default zenith_AZEL dir])
            /\ row !! "timeOrigin" = Some (Double_cell time)
            /\ row !! "tracking" = Some (Bool_cell false)).
Proof.
  intros Hdir.
  set (zenith := [default zenith_AZEL dir]).
  assert (Hrun : fillPointingTab setDirectionRef nAnt time dir t
                 = (Ok nAnt,
                    imap (fun i row => if decide (0 <= i < 0 + nAnt)
                                       then pnt_row zenith time i row else row)
                      (t1 ++ replicate nAnt ∅))).
  { assert (Hloop : forall t2 : MSTable,
              (addRow nAnt ;;;
               for_each (seq 0 nAnt) (fillPointingTab_body zenith time) ;;;
               ret nAnt)%cxx t2
              = (Ok nAnt,
                 imap (fun i row => if decide (0 <= i < 0 + nAnt)
                                    then pnt_row zenith time i row else row)
                   (t2 ++ replicate nAnt ∅))).
    { intros t2. rewrite addRow_then. unfold bind.
      rewrite (for_each_rows (pnt_row zenith time)).
      - reflexivity.
      - intros i t' Hi. apply fillPointingTab_body_run, Hi.
      - rewrite length_app, length_replicate. lia. }
    unfold fillPointingTab. unfold bind at 1.
    destruct dir as [d|].
    - subst t1. unfold ret at 1. apply Hloop.
    - unfold bind at 1. rewrite Hdir. unfold ret at 1. apply Hloop. }
  eexists. split; [exact Hrun|].
  split; [rewrite length_imap, length_app, length_replicate; reflexivity|].
  intros i Hi.
  destruct (lookup_lt_is_Some_2 (t1 ++ replicate nAnt ∅) i) as [row0 Hrow0].
  { rewrite length_app, length_replicate. lia. }
  exists (pnt_row zenith time i row0). split.
  - rewrite list_lookup_imap, Hrow0. simpl.
    destruct (decide _); [reflexivity | lia].
  - unfold pnt_row. repeat split; row_lookup.
Qed.

Lemma fillPointingTab_rows_witness :
  exists t' : MSTable,
    fillPointingTab (fun _ => ret tt) 2 5 None [] = (Ok 2, t')
    /\ length t' = 2.
Proof.
  destruct (fillPointingTab_rows (fun _ => ret tt) 2 5 None [] [])
    as (t' & H1 & H2 & _); [reflexivity|].
  exists t'. split; [exact H1 | exact H2].
Defined.

(** ** Further properties of the conversions *)

(** *** Flags *)

(** Bytes unpacked into flags and packed again come back normalised: a
    zero stays, every other byte becomes 1. *)
Theorem flag_bytes_normalised (charVec buf : list char) (boolArr : Array bool) :
  wf_Array boolArr ->
  product (shape boolArr) = length charVec ->
  length buf = length charVec ->
  exists decoded,
    charVector2boolArray charVec boolArr = (Ok tt, decoded) /\
    boolArray2charVector decoded buf
    = (Ok tt, map (fun c => if (c =? 0)%Z then 0%Z else 1%Z) charVec).
Proof.
  unfold wf_Array. intros Hwf Hsz Hbuf.
  exists (mkArray (shape boolArr) (map char2bool charVec)). split.
  - rewrite charVector2boolArray_run.
    destruct (decide _) as [_|N]; [|congruence].
    rewrite charVector2boolArray_loop_eq by congruence. reflexivity.
  - rewrite boolArray2charVector_run. cbn [shape elems].
    destruct (decide _) as [_|N]; [|congruence].
    rewrite boolArray2charVector_loop_eq by (rewrite length_map; congruence).
    cbn [fst]. rewrite map_map. f_equal. apply map_ext. intros c.
    unfold char2bool, bool2char. destruct (c =? 0)%Z; reflexivity.
Qed.

Lemma flag_bytes_normalised_witness :
  exists decoded,
    charVector2boolArray [0; 5; -1]%Z (mkArray [3] [false; false; false])
    = (Ok tt, decoded) /\
    boolArray2charVector decoded [9; 9; 9]%Z
    = (Ok tt, map (fun c => if (c =? 0)%Z then 0%Z else 1%Z) [0; 5; -1]%Z).
Proof.
  apply (flag_bytes_normalised [0; 5; -1]%Z [9; 9; 9]%Z
           (mkArray [3] [false; false; false])); reflexivity.
Defined.

(** *** The calibration reader *)

(** A table whose [FLAG] cells hold another number of elements than its
    [CPARAM] cells, the cells being arrays with at least one axis: the
    reader throws the [std::length_error] of [boolArray2charVector].  By
    then [gain] holds the gains of the table, and [flag] has the size of
    [gain], its old content cut or filled up with zeros. *)
Theorem readCalTable_flag_size_mismatch (cal : Table) (gain : list Complex)
    (flag : list char) (gshape fshape : IPosition) :
  cal <> [] ->
  gshape <> [] -> fshape <> [] ->
  Forall (fun row => shape (CPARAM row) = gshape /\ shape (FLAG row) = fshape) cal ->
  product fshape <> product gshape ->
  readCalTable cal (gain, flag)
  = (Throw (length_error mismatch_msg),
     (column_gains cal, resize (product gshape * length cal) 0%Z flag)).
Proof.
  intros Hne Hgne Hfne Hall Hprod.
  destruct cal as [|row0 rest]; [contradiction|].
  pose proof (readCalTable_run _ row0 rest gain flag eq_refl) as Hrun.
  cbv zeta in Hrun. set (cal := row0 :: rest) in *.
  assert (H0 : shape (CPARAM row0) = gshape /\ shape (FLAG row0) = fshape).
  { apply Forall_inv in Hall. tauto. }
  destruct H0 as [Hg0 Hf0].
  rewrite Hrun, Hg0, Hf0.
  rewrite (conforming_true gshape)
    by (apply Forall_map; eapply Forall_impl; [exact Hall|]; simpl; tauto).
  rewrite (conforming_true fshape)
    by (apply Forall_map; eapply Forall_impl; [exact Hall|]; simpl; tauto).
  cbv zeta. rewrite boolArray2charVector_run. cbn [shape elems].
  rewrite length_resize, !product_app_row by assumption.
  destruct (decide _) as [E|_].
  - exfalso. apply Hprod. apply Nat.mul_cancel_r in E; [exact E|].
    unfold cal. simpl. lia.
  - unfold column_gains. rewrite map_map. reflexivity.
Qed.

Lemma readCalTable_flag_size_mismatch_witness :
  readCalTable [mkCalRow (mkArray [1] [(1, 0)%R]) (mkArray [2] [true; false]) 0]
    ([], [7]%Z)
  = (Throw (length_error mismatch_msg),
     (column_gains [mkCalRow (mkArray [1] [(1, 0)%R]) (mkArray [2] [true; false]) 0],
      resize (product [1] * 1) 0%Z [7]%Z)).
Proof.
  apply (readCalTable_flag_size_mismatch
           [mkCalRow (mkArray [1] [(1, 0)%R]) (mkArray [2] [true; false]) 0]
           [] [7]%Z [1] [2]).
  - discriminate.
  - discriminate.
  - discriminate.
  - repeat constructor.
  - simpl. lia.
Defined.

(** *** Baselines *)

Section ZenithUVWsIndex.

Variable double : Type.
Variable minus : double -> double -> double.
Variable unwritten : double.

(** Where the baseline of a pair stands: for [N] antennas, [N] up to 46340
    so that the [int] arithmetic of the source does not overflow, the pair
    [(i, j)], [i <= j], is at index [i (2N + 1 - i) / 2 + (j - i)] of the
    result, and holds the difference of the two positions as [minus]
    computes it. *)
Theorem zenithUVWs_pair_index (antPos : list (double * double * double))
    (i j : nat) (p q : double * double * double) :
  (Z.of_nat (length antPos) <= 46340)%Z ->
  i <= j -> antPos !! i = Some p -> antPos !! j = Some q ->
  exists uvw,
    zenithUVWs minus unwritten antPos = Ok uvw /\
    uvw !! (i * (2 * length antPos + 1 - i) / 2 + (j - i)) = Some (vsub minus p q).
Proof.
  intros Hfit Hij Hp Hq.
  pose proof (lookup_lt_Some _ _ _ Hq) as Hj.
  assert (Hrow : i * (2 * length antPos + 1 - i) / 2 = row_start (length antPos) i).
  { symmetry. apply Nat.div_unique_exact; [lia|].
    rewrite row_start_closed by lia. reflexivity. }
  eexists. split; [apply zenithUVWs_eq, Hfit|].
  rewrite Hrow.
  change (row_start (length antPos) i + (j - i))
    with (baseline_index (length antPos) i j).
  rewrite spec_baselines_lookup by lia.
  rewrite (position_lookup _ _ _ _ Hp), (position_lookup _ _ _ _ Hq). reflexivity.
Qed.

End ZenithUVWsIndex.

Lemma zenithUVWs_pair_index_witness :
  exists uvw,
    zenithUVWs PrimFloat.sub 0%float [(0, 0, 0); (10, 0, 0); (0, 5, 0)]%float = Ok uvw /\
    uvw !! (1 * (2 * 3 + 1 - 1) / 2 + (2 - 1))
    = Some (vsub PrimFloat.sub (10, 0, 0)%float (0, 5, 0)%float).
Proof.
  apply (zenithUVWs_pair_index float PrimFloat.sub 0%float
           [(0, 0, 0); (10, 0, 0); (0, 5, 0)]%float 1 2
           (10, 0, 0)%float (0, 5, 0)%float).
  - simpl. lia.
  - lia.
  - reflexivity.
  - reflexivity.
Defined.

(** *** The sea-level radius *)

Open Scope R_scope.

(** The sea-level radius is the same north and south of the equator, and
    does not grow from the equator to a pole. *)
Theorem seaLevel_symmetric_decreasing :
  (forall latitude, seaLevel (- latitude) = seaLevel latitude) /\
  (forall a b, 0 <= a -> a <= b -> b <= 90 -> seaLevel b <= seaLevel a).
Proof.
  split.
  - intros latitude. unfold seaLevel, hypot, radians. cbv zeta.
    replace (- latitude * PI / 180) with (- (latitude * PI / 180)) by lra.
    rewrite cos_neg, sin_neg. f_equal. ring.
  - intros a b Ha Hab Hb.
    pose proof axes_ordered as [Hmin Hmaj]. pose proof PI_RGT_0 as Hpi.
    unfold seaLevel, hypot. cbv zeta.
    set (ta := radians a). set (tb := radians b).
    assert (Hta : 0 <= ta) by (unfold ta, radians; nra).
    assert (Htab : ta <= tb) by (unfold ta, tb, radians; nra).
    assert (Htb : tb <= PI / 2) by (unfold tb, radians; nra).
    assert (Hsa : 0 <= sin ta) by (apply sin_ge_0; lra).
    assert (Hsab : sin ta <= sin tb) by (apply sin_incr_1; lra).
    pose proof (sin2_cos2 ta) as Ea. pose proof (sin2_cos2 tb) as Eb.
    unfold Rsqr in Ea, Eb.
    apply sqrt_le_1_alt.
    assert (Hsq : sin ta * sin ta <= sin tb * sin tb)
      by (apply Rmult_le_compat; lra).
    assert (Hd : 0 <= (majorAxis * majorAxis - minorAxis * minorAxis)
                      * (sin tb * sin tb - sin ta * sin ta))
      by (apply Rmult_le_pos; nra).
    nra.
Qed.

Lemma seaLevel_symmetric_decreasing_witness :
  0 <= 30 /\ 30 <= 60 /\ 60 <= 90 /\ seaLevel 60 <= seaLevel 30.
Proof.
  split; [lra|]. split; [lra|]. split; [lra|].
  apply (proj2 seaLevel_symmetric_decreasing 30 60); lra.
Defined.

Close Scope R_scope.

(** *** The height of an antenna *)

Section ItrfAntsHeight.

Variable Angles : Type.
Variable getAngle : Vector3 -> Angles.
Variable wgs2itrf : R -> Angles -> Vector3.

(** Over the reals: the height handed to the conversion for an antenna with
    the offset (East, North, Up) is its distance from the sphere of the
    sea-level radius [r] at the reference latitude:
    [sqrt ((Up + r + altitude)^2 + East^2 + North^2) - r], whatever the
    longitude, and it is not below [Up + altitude].  (In double precision
    both hold up to rounding only: the rotations and the subtraction of [r]
    round.) *)
Theorem itrfAnts_height (antPos : Matrix) (longitude latitude altitude : R)
    (i : nat) (offset : Vector3) :
  antPos !! i = Some offset ->
  exists v : Vector3,
    itrfAnts Angles getAngle wgs2itrf antPos longitude latitude altitude !! i
    = Some (wgs2itrf (getLength v - seaLevel latitude) (getAngle v))
    /\ getLength v
       = sqrt ((vget 2 offset + (seaLevel latitude + altitude))
               * (vget 2 offset + (seaLevel latitude + altitude))
               + vget 0 offset * vget 0 offset
               + vget 1 offset * vget 1 offset)%R
    /\ (0 <= vget 2 offset + (seaLevel latitude + altitude) ->
        vget 2 offset + altitude <= getLength v - seaLevel latitude)%R.
Proof.
  intros Hi.
  set (loc := ((vget 2 offset + (seaLevel latitude + altitude))%R,
               vget 0 offset, vget 1 offset) : Vector3).
  exists (rotate_pole_axis (radians longitude)
            (rotate_latitude_axis (- radians latitude) loc)).
  assert (Hlen : getLength (rotate_pole_axis (radians longitude)
                              (rotate_latitude_axis (- radians latitude) loc))
                 = sqrt ((vget 2 offset + (seaLevel latitude + altitude))
                         * (vget 2 offset + (seaLevel latitude + altitude))
                         + vget 0 offset * vget 0 offset
                         + vget 1 offset * vget 1 offset)%R).
  { rewrite getLength_rotate_pole_axis, getLength_rotate_latitude_axis.
    reflexivity. }
  split; [|split].
  - rewrite itrfAnts_eq_map, lookup_map, Hi. reflexivity.
  - exact Hlen.
  - intros Hpos. rewrite Hlen.
    set (a := (vget 2 offset + (seaLevel latitude + altitude))%R) in *.
    assert (Ha : (a <= sqrt (a * a + vget 0 offset * vget 0 offset
                             + vget 1 offset * vget 1 offset))%R).
    { rewrite <- (sqrt_square a) at 1 by exact Hpos.
      apply sqrt_le_1_alt.
      pose proof (Rle_0_sqr (vget 0 offset)) as H0.
      pose proof (Rle_0_sqr (vget 1 offset)) as H1.
      unfold Rsqr in H0, H1. lra. }
    unfold a in *. lra.
Qed.

End ItrfAntsHeight.

Lemma itrfAnts_height_witness :
  exists v : Vector3,
    itrfAnts unit (fun _ => tt) (fun h _ => (h, 0, 0)%R)
      [(3, 4, 0)%R] 0 0 0 !! 0
    = Some (getLength v - seaLevel 0, 0, 0)%R
    /\ getLength v
       = sqrt ((0 + (seaLevel 0 + 0)) * (0 + (seaLevel 0 + 0)) + 3 * 3 + 4 * 4)%R.
Proof.
  destruct (itrfAnts_height unit (fun _ => tt) (fun h _ => (h, 0, 0)%R)
              [(3, 4, 0)%R] 0 0 0 0 (3, 4, 0)%R eq_refl) as (v & H1 & H2 & _).
  exists v. split; [exact H1 | exact H2].
Defined.

(** *** Timestamps *)

Open Scope string_scope.

Lemma list_ascii_of_string_app (a b : string) :
  list_ascii_of_string (a ++ b)
  = (list_ascii_of_string a ++ list_ascii_of_string b)%list.
Proof.
  induction a as [|c a IH]; [reflexivity|].
  change (c :: list_ascii_of_string (a ++ b)
          = c :: (list_ascii_of_string a ++ list_ascii_of_string b)%list).
  rewrite IH. reflexivity.
Qed.

Lemma skip_space_app (ws l : list ascii) :
  forallb isspace ws = true -> skip_space (ws ++ l)%list = skip_space l.
Proof.
  induction ws as [|c ws IH]; intros H; [reflexivity|].
  simpl in H. apply andb_true_iff in H as [Hc Hws].
  simpl. rewrite Hc. apply IH, Hws.
Qed.

Lemma scan_d_skip_space (input : list ascii) :
  scan_d (skip_space input) = scan_d input.
Proof.
  unfold scan_d. f_equal. f_equal.
  induction input as [|c l IH]; [reflexivity|].
  simpl. destruct (isspace c) eqn:E; [exact IH|].
  simpl. rewrite E. reflexivity.
Qed.

(** What [sscanf] does with the format of [str2MEpoch] depends on the
    input behind the leading white space only. *)
Lemma sscanf_skip_space (ws time : string) :
  forallb isspace (list_ascii_of_string ws) = true ->
  sscanf (ws ++ time) time_format = sscanf time time_format.
Proof.
  intros Hws. unfold sscanf. rewrite time_format_directives.
  rewrite list_ascii_of_string_app.
  set (w := list_ascii_of_string ws) in *. set (l := list_ascii_of_string time).
  cbv zeta. rewrite (skip_space_app w l Hws).
  assert (Hd : scan_d (w ++ l)%list = scan_d l).
  { rewrite <- (scan_d_skip_space (w ++ l)%list), <- (scan_d_skip_space l).
    rewrite skip_space_app by exact Hws. reflexivity. }
  cbn [scan]. rewrite Hd. reflexivity.
Qed.

Section Str2MEpochFurther.

Variables double Time_t MVTime_t MVEpoch_t : Type.
Variable Time : Z -> Z -> Z -> Z -> Z -> lf -> result Time_t.
Variable Time_plus : Time_t -> double -> Time_t.
Variable MVTime : Time_t -> MVTime_t.
Variable MVEpoch : MVTime_t -> MVEpoch_t.

(** White space before the timestamp is skipped: the epoch, or the
    exception, is that of the timestamp without it. *)
Theorem str2MEpoch_leading_space (ws time : string) (offset : double) :
  forallb isspace (list_ascii_of_string ws) = true ->
  str2MEpoch Time Time_plus MVTime MVEpoch (ws ++ time) offset
  = str2MEpoch Time Time_plus MVTime MVEpoch time offset.
Proof.
  intros Hws. unfold str2MEpoch. rewrite (sscanf_skip_space ws time Hws).
  reflexivity.
Qed.

(** A string without a digit is never taken for a timestamp, and casacore's
    [Time] is not asked. *)
Theorem str2MEpoch_no_digit (time : string) (offset : double) :
  forallb (fun c => negb (isdigit c)) (list_ascii_of_string time) = true ->
  str2MEpoch Time Time_plus MVTime MVEpoch time offset
  = Throw (runtime_error invalid_string_msg).
Proof.
  intros Hnd.
  assert (Hscan : scan_d (list_ascii_of_string time) = None).
  { revert Hnd. generalize (list_ascii_of_string time) as l. intros l Hl.
    assert (Hskip : forallb (fun c => negb (isdigit c)) (skip_space l) = true).
    { induction l as [|c l IH]; [reflexivity|].
      simpl in Hl. apply andb_true_iff in Hl as [Hc Hl'].
      simpl. destruct (isspace c); [apply IH, Hl'|].
      simpl. rewrite Hc. exact Hl'. }
    unfold scan_d.
    destruct (skip_space l) as [|c r]; [reflexivity|].
    simpl in Hskip. apply andb_true_iff in Hskip as [Hc Hr].
    assert (Hspan : forall r' : list ascii,
              forallb (fun c => negb (isdigit c)) r' = true ->
              span isdigit r' = ([], r')).
    { intros [|c' r'] H; [reflexivity|].
      simpl in H. apply andb_true_iff in H as [Hc' _].
      simpl. destruct (isdigit c'); [discriminate|reflexivity]. }
    unfold scan_sign.
    destruct (Ascii.eqb c "-"); [rewrite (Hspan r Hr); reflexivity|].
    destruct (Ascii.eqb c "+"); [rewrite (Hspan r Hr); reflexivity|].
    rewrite (Hspan (c :: r)); [reflexivity|].
    simpl. rewrite Hc. exact Hr. }
  unfold str2MEpoch, sscanf. rewrite time_format_directives.
  cbn [scan]. rewrite Hscan.
  destruct (skip_space (list_ascii_of_string time)); reflexivity.
Qed.

End Str2MEpochFurther.

Lemma str2MEpoch_leading_space_witness :
  str2MEpoch Time_of_day Rplus same_instant same_instant
    ("  " ++ "2020-01-01-12:30:00.0") 0%R
  = str2MEpoch Time_of_day Rplus same_instant same_instant
      "2020-01-01-12:30:00.0" 0%R.
Proof.
  apply (str2MEpoch_leading_space R R R R Time_of_day Rplus same_instant same_instant
           "  " "2020-01-01-12:30:00.0" 0%R).
  reflexivity.
Defined.

Lemma str2MEpoch_no_digit_witness :
  str2MEpoch Time_of_day Rplus same_instant same_instant "yesterday at noon" 0%R
  = Throw (runtime_error invalid_string_msg).
Proof.
  apply (str2MEpoch_no_digit R R R R Time_of_day Rplus same_instant same_instant
           "yesterday at noon" 0%R).
  reflexivity.
Defined.

Close Scope string_scope.

Open Scope char_scope.

(** The seconds of a timestamp convert the same with text behind them that
    cannot belong to a number. *)
Lemma scan_lf_seconds_then (a b c : ascii) (fp junk : list ascii) :
  isdigit a = true -> isdigit b = true -> forallb isdigit (c :: fp) = true ->
  ends_number junk ->
  exists q,
    scan_lf (a :: b :: "." :: c :: fp) = Some (lf_num q, [])
    /\ scan_lf (a :: b :: "." :: (c :: fp) ++ junk) = Some (lf_num q, junk).
Proof.
  intros Ha Hb Hfp Hjunk.
  destruct (isdigit_facts a Ha) as (Hsp & Hminus & Hplus & _ & Hi & Hn & _).
  destruct (isdigit_facts b Hb) as (_ & _ & _ & _ & _ & _ & Hx).
  assert (Hrun : forall tail : list ascii, ends_number tail ->
    scan_lf (a :: b :: "." :: (c :: fp) ++ tail)
    = Some (lf_num
              (inject_Z (number_of 10 digit_value ([a; b] ++ c :: fp))
               / inject_Z (10 ^ Z.of_nat (length (c :: fp)))
               * Qpower (inject_Z 10) 0)%Q, tail)).
  { intros tail Htail. unfold scan_lf.
    replace (skip_space (a :: b :: "." :: (c :: fp) ++ tail))
      with (a :: b :: "." :: (c :: fp) ++ tail)
      by (simpl; rewrite Hsp; reflexivity).
    replace (scan_sign (a :: b :: "." :: (c :: fp) ++ tail))
      with (false, a :: b :: "." :: (c :: fp) ++ tail)
      by (simpl; rewrite Hminus, Hplus; reflexivity).
    cbn [list_ascii_of_string match_word]. rewrite Hi, Hn, Hx.
    replace (if Ascii.eqb "0" (tolower a) then None else None)
      with (@None (list ascii)) by (destruct (Ascii.eqb "0" (tolower a)); reflexivity).
    unfold scan_number, scan_mantissa.
    replace (span isdigit (a :: b :: "." :: (c :: fp) ++ tail))
      with ([a; b], "." :: (c :: fp) ++ tail).
    2: { symmetry. apply (span_digits [a; b] ("." :: (c :: fp) ++ tail)).
         - simpl. rewrite Ha, Hb. reflexivity.
         - reflexivity. }
    rewrite Ascii.eqb_refl.
    assert (Hnd : no_digit_ahead tail).
    { destruct tail as [|j tail]; [exact I|]. apply Htail. }
    rewrite (span_digits (c :: fp) tail Hfp Hnd).
    destruct tail as [|j tail]; [reflexivity|].
    destruct Htail as [_ He]. unfold scan_exponent. rewrite He. reflexivity. }
  eexists. split.
  - rewrite <- (app_nil_r (c :: fp)) at 1. apply (Hrun [] I).
  - apply (Hrun junk Hjunk).
Qed.

Close Scope char_scope.

(** A string of the specified form with such text behind it is converted
    as the string alone. *)
Lemma sscanf_conforming_then (time junk : string) :
  spec_conforms time = true ->
  ends_number (list_ascii_of_string junk) ->
  sscanf (time ++ junk) time_format = sscanf time time_format.
Proof.
  unfold spec_conforms, sscanf.
  rewrite time_format_directives, list_ascii_of_string_app.
  generalize (list_ascii_of_string junk) as tail. intros tail.
  remember (list_ascii_of_string time) as l eqn:Hl. clear Hl time.
  destruct (match_pattern spec_timestamp_pattern l) as [rest|] eqn:H; [|discriminate].
  unfold spec_timestamp_pattern in H.
  pattern_digit H yr1 Hyr1. pattern_digit H yr2 Hyr2.
  pattern_digit H yr3 Hyr3. pattern_digit H yr4 Hyr4. pattern_char H.
  pattern_digit H mo1 Hmo1. pattern_digit H mo2 Hmo2. pattern_char H.
  pattern_digit H da1 Hda1. pattern_digit H da2 Hda2. pattern_char H.
  pattern_digit H ho1 Hho1. pattern_digit H ho2 Hho2. pattern_char H.
  pattern_digit H mi1 Hmi1. pattern_digit H mi2 Hmi2. pattern_char H.
  pattern_digit H se1 Hse1. pattern_digit H se2 Hse2. pattern_char H.
  cbn [match_pattern] in H. injection H as <-.
  destruct l as [|f1 fp]; [discriminate|]. intros Hfp Htail.
  destruct (scan_lf_seconds_then se1 se2 f1 fp tail Hse1 Hse2 Hfp Htail)
    as (q & Hq & Hq').
  cbv zeta. rewrite <- !app_comm_cons.
  assert (Hsp : forall r : list ascii, skip_space (yr1 :: r) = yr1 :: r).
  { intros r. simpl. destruct (isdigit_facts yr1 Hyr1) as [-> _]. reflexivity. }
  rewrite !Hsp.
  erewrite !scan_conv_d
    by (apply scan_d_four; [assumption | assumption | assumption | assumption | reflexivity]).
  rewrite !scan_ordinary.
  do 4 (erewrite !scan_conv_d
          by (apply scan_d_two; [assumption | assumption | reflexivity]);
        rewrite !scan_ordinary).
  cbn [scan]. rewrite Hq. rewrite app_comm_cons, Hq'. reflexivity.
Qed.

Open Scope string_scope.

Section Str2MEpochTrailing.

Variables double Time_t MVTime_t MVEpoch_t : Type.
Variable Time : Z -> Z -> Z -> Z -> Z -> lf -> result Time_t.
Variable Time_plus : Time_t -> double -> Time_t.
Variable MVTime : Time_t -> MVTime_t.
Variable MVEpoch : MVTime_t -> MVEpoch_t.

(** Text behind a timestamp of the specified form is not looked at, unless
    it starts with a digit or the mark of an exponent: the epoch, or the
    exception of casacore's [Time], is that of the timestamp alone. *)
Theorem str2MEpoch_ignores_suffix (time junk : string) (offset : double) :
  spec_conforms time = true ->
  ends_number (list_ascii_of_string junk) ->
  str2MEpoch Time Time_plus MVTime MVEpoch (time ++ junk) offset
  = str2MEpoch Time Time_plus MVTime MVEpoch time offset.
Proof.
  intros Hc Hj. unfold str2MEpoch.
  rewrite (sscanf_conforming_then time junk Hc Hj). reflexivity.
Qed.

End Str2MEpochTrailing.

Lemma str2MEpoch_ignores_suffix_witness :
  str2MEpoch Time_of_day Rplus same_instant same_instant
    ("2020-01-01-12:30:00.0" ++ " UTC") 0%R
  = str2MEpoch Time_of_day Rplus same_instant same_instant
      "2020-01-01-12:30:00.0" 0%R.
Proof.
  apply (str2MEpoch_ignores_suffix R R R R Time_of_day Rplus same_instant same_instant
           "2020-01-01-12:30:00.0" " UTC" 0%R).
  - reflexivity.
  - split; reflexivity.
Defined.

Close Scope string_scope.
